(** * FlowSync landing page: development server (server.js)

    A shallow embedding of the request dispatcher, the static file
    responder, the MIME classifier, the change notifier and the debounced
    file watcher of [server.js], with the properties of the specification
    stated over it.

    Conventions.
    - A JavaScript string is a [string]: the sequence of the bytes of its
      UTF-8 encoding.  The patterns the server searches for (the slash, the
      dot, the question mark, the closing body tag) are ASCII, so searching
      the encoding finds the same places as searching the code units.
    - A [Buffer] is a [string] as well: a sequence of bytes.
    - Node's [path] module is the POSIX one. *)

From Stdlib Require Import Strings.String Strings.Ascii.
From Stdlib Require Import List Bool Arith ZArith NArith Lia.
From Stdlib Require Import Numbers.DecimalString.
Import ListNotations.

Local Open Scope string_scope.

(** ** JavaScript values and strings *)

Module JS.

(** The values [config.port] can hold: a number, or the text of an
    environment variable. *)
Inductive value : Type :=
| Num (n : Z)
| Str (s : string).

(** [ToString] of a value (integers only: ports). *)
Definition toString (v : value) : string :=
  match v with
  | Num n => NilZero.string_of_int (Z.to_int n)
  | Str s => s
  end.

(** The binary [+]: numeric addition of two numbers, concatenation as soon
    as one operand is a string. *)
Definition add (a b : value) : value :=
  match a, b with
  | Num x, Num y => Num (x + y)
  | _, _ => Str (toString a ++ toString b)
  end.

(** Truthiness of a string: only the empty one is falsy. *)
Definition truthy (s : string) : bool :=
  match s with
  | EmptyString => false
  | String _ _ => true
  end.

(** [a || b] where [a] is a string or [undefined]. *)
Definition orElse {A : Type} (inj : string -> A) (a : option string) (b : A) : A :=
  match a with
  | Some s => if truthy s then inj s else b
  | None => b
  end.

Definition isChar (c d : ascii) : bool := Ascii.eqb c d.

(** [s.split(sep)[0]] for a one-character separator. *)
Fixpoint splitHead (sep : ascii) (s : string) : string :=
  match s with
  | EmptyString => EmptyString
  | String c r => if isChar c sep then EmptyString else String c (splitHead sep r)
  end.

(** [s.startsWith(p)]. *)
Fixpoint startsWith (p s : string) : bool :=
  match p, s with
  | EmptyString, _ => true
  | String a p', String b s' => isChar a b && startsWith p' s'
  | String _ _, EmptyString => false
  end.

(** [s.endsWith(c)] for a one-character argument. *)
Fixpoint endsWithChar (c : ascii) (s : string) : bool :=
  match s with
  | EmptyString => false
  | String a EmptyString => isChar a c
  | String _ r => endsWithChar c r
  end.

(** [s.indexOf(p)]: the least position at which [p] occurs. *)
Fixpoint indexOf (p s : string) : option nat :=
  if startsWith p s then Some 0
  else match s with
       | EmptyString => None
       | String _ r => option_map S (indexOf p r)
       end.

(** [s.includes(p)]. *)
Definition includes (p s : string) : bool :=
  match indexOf p s with
  | Some _ => true
  | None => false
  end.

(** [s.lastIndexOf(c)] for a one-character argument. *)
Fixpoint lastIndexOfChar (c : ascii) (s : string) : option nat :=
  match s with
  | EmptyString => None
  | String a r =>
      match lastIndexOfChar c r with
      | Some i => Some (S i)
      | None => if isChar a c then Some 0 else None
      end
  end.

(** [s.slice(0, n)] and [s.slice(n)]. *)
Fixpoint take (n : nat) (s : string) : string :=
  match n, s with
  | S n', String c r => String c (take n' r)
  | _, _ => EmptyString
  end.

Fixpoint drop (n : nat) (s : string) : string :=
  match n, s with
  | S n', String _ r => drop n' r
  | _, _ => s
  end.

(** [toLowerCase] on one character: the ASCII capitals are folded, every
    other byte is kept. *)
Definition lowerChar (c : ascii) : ascii :=
  let n := nat_of_ascii c in
  if ((65 <=? n) && (n <=? 90))%nat then ascii_of_nat (n + 32) else c.

Fixpoint toLowerCase (s : string) : string :=
  match s with
  | EmptyString => EmptyString
  | String c r => String (lowerChar c) (toLowerCase r)
  end.

(** [GetSubstitution] for a string pattern (no capture groups): in the
    replacement text a dollar followed by a dollar, an ampersand, a
    backquote or a quote stands for a dollar, the matched text, the text
    before the match and the text after it. *)
Fixpoint getSubstitution (matched before after repl : string) : string :=
  match repl with
  | EmptyString => EmptyString
  | String c r =>
      if isChar c "$" then
        match r with
        | String d r' =>
            if isChar d "$" then String "$" (getSubstitution matched before after r')
            else if isChar d "&" then matched ++ getSubstitution matched before after r'
            else if isChar d "`" then before ++ getSubstitution matched before after r'
            else if isChar d "'" then after ++ getSubstitution matched before after r'
            else String c (getSubstitution matched before after r)
        | EmptyString => String c EmptyString
        end
      else String c (getSubstitution matched before after r)
  end.

(** [s.replace(p, repl)] with a string pattern: only the first occurrence
    of [p] is replaced; without an occurrence [s] is returned. *)
Definition replace (p repl s : string) : string :=
  match indexOf p s with
  | None => s
  | Some i =>
      let before := take i s in
      let after := drop (i + String.length p) s in
      before ++ getSubstitution p before after repl ++ after
  end.

End JS.

(** ** Node's [path] module (POSIX) *)

Module Path.

Definition slash : ascii := "/"%char.
Definition dot : ascii := "."%char.

Definition isPosixPathSeparator (c : ascii) : bool := JS.isChar c slash.

(** The state of the loop of [normalizeString].  [seg] is the text read
    since the last separator, [path.slice(lastSlash + 1, i)]; it is empty
    exactly when [lastSlash === i - 1].  [dots] is [-1] once the segment
    holds something other than dots. *)
Record nstate : Type := {
  res : string;
  lastSegmentLength : nat;
  seg : string;
  dots : Z
}.

Definition nstart : nstate :=
  {| res := EmptyString; lastSegmentLength := 0; seg := EmptyString; dots := 0 |}.

(** The text of [r] before its last separator, with the length of the
    segment that then ends it; without a separator nothing is left. *)
Definition dropLastSegment (r : string) : string * nat :=
  match JS.lastIndexOfChar slash r with
  | None => (EmptyString, 0)
  | Some i =>
      let r' := JS.take i r in
      (r', match JS.lastIndexOfChar slash r' with
           | None => String.length r'
           | Some j => String.length r' - 1 - j
           end)
  end.

(** Does [r] end with two dots? *)
Definition endsWithDotDot (r : string) : bool :=
  let n := String.length r in
  match String.get (n - 1) r, String.get (n - 2) r with
  | Some a, Some b => JS.isChar a dot && JS.isChar b dot
  | _, _ => false
  end.

(** One turn of the loop at a separator. *)
Definition onSeparator (allowAboveRoot : bool) (st : nstate) : nstate :=
  let closed r n := {| res := r; lastSegmentLength := n; seg := EmptyString; dots := 0 |} in
  let above :=
    if allowAboveRoot
    then closed (if (0 <? String.length (res st))%nat then res st ++ "/.." else "..") 2
    else closed (res st) (lastSegmentLength st) in
  match seg st with
  | EmptyString => closed (res st) (lastSegmentLength st)
  | String _ _ =>
      if (dots st =? 1)%Z then closed (res st) (lastSegmentLength st)
      else if (dots st =? 2)%Z then
        if (String.length (res st) <? 2)%nat
           || negb (lastSegmentLength st =? 2)%nat
           || negb (endsWithDotDot (res st))
        then
          if (2 <? String.length (res st))%nat then
            let '(r, n) := dropLastSegment (res st) in closed r n
          else if negb (String.length (res st) =? 0)%nat then closed EmptyString 0
          else above
        else above
      else
        closed (if (0 <? String.length (res st))%nat
                then res st ++ "/" ++ seg st else seg st)
               (String.length (seg st))
  end.

(** One turn of the loop at the character [c]. *)
Definition nstep (allowAboveRoot : bool) (st : nstate) (c : ascii) : nstate :=
  if isPosixPathSeparator c then onSeparator allowAboveRoot st
  else
    {| res := res st;
       lastSegmentLength := lastSegmentLength st;
       seg := seg st ++ String c EmptyString;
       dots := if JS.isChar c dot && negb (dots st =? -1)%Z
               then (dots st + 1)%Z else (-1)%Z |}.

Fixpoint nloop (allowAboveRoot : bool) (st : nstate) (p : string) : nstate :=
  match p with
  | EmptyString => st
  | String c r => nloop allowAboveRoot (nstep allowAboveRoot st c) r
  end.

(** [normalizeString(path, allowAboveRoot, '/', isPosixPathSeparator)].
    After the last character the loop runs once more at a separator,
    unless the last character was one: then [seg] is empty and the extra
    turn changes nothing, so [onSeparator] covers both ways out. *)
Definition normalizeString (p : string) (allowAboveRoot : bool) : string :=
  res (onSeparator allowAboveRoot (nloop allowAboveRoot nstart p)).

(** [path.normalize]. *)
Definition normalize (p : string) : string :=
  match p with
  | EmptyString => "."
  | String c _ =>
      let isAbsolute := JS.isChar c slash in
      let trailingSeparator := JS.endsWithChar slash p in
      let q := normalizeString p (negb isAbsolute) in
      match q with
      | EmptyString =>
          if isAbsolute then "/" else if trailingSeparator then "./" else "."
      | String _ _ =>
          let q' := if trailingSeparator then q ++ "/" else q in
          if isAbsolute then "/" ++ q' else q'
      end
  end.

(** [path.join(a, b)]: the non-empty arguments are joined with a slash and
    the result is normalized. *)
Definition join (a b : string) : string :=
  match a, b with
  | EmptyString, EmptyString => "."
  | EmptyString, _ => normalize b
  | _, EmptyString => normalize a
  | _, _ => normalize (a ++ "/" ++ b)
  end.

(** [path.extname] reads the path from its end.  First the last path
    component, written backwards: the separators that end the path are
    skipped ([matchedSlash]), the next separator stops the scan. *)
Fixpoint lastComponentRev (matchedSlash : bool) (rev_p : list ascii) : list ascii :=
  match rev_p with
  | [] => []
  | c :: r =>
      if isPosixPathSeparator c then
        if matchedSlash then lastComponentRev true r else []
      else c :: lastComponentRev false r
  end.

(** The state of the scan over that component.  [startDot] is the place of
    the first dot met, counted from the end of the component ([0] when
    [startDot === end - 1]); [preDotState] is [0] while nothing was seen
    before that dot, [-1] after another character, [1] after another
    dot. *)
Record estate : Type := {
  startDot : option nat;
  preDotState : Z
}.

Definition estep (k : nat) (c : ascii) (st : estate) : estate :=
  if JS.isChar c dot then
    match startDot st with
    | None => {| startDot := Some k; preDotState := preDotState st |}
    | Some _ => {| startDot := startDot st; preDotState := 1 |}
    end
  else
    match startDot st with
    | None => st
    | Some _ => {| startDot := startDot st; preDotState := -1 |}
    end.

Fixpoint escan (k : nat) (rev_c : list ascii) (st : estate) : estate :=
  match rev_c with
  | [] => st
  | c :: r => escan (S k) r (estep k c st)
  end.

(** [path.extname]: the text from the last dot of the last component, or
    nothing when there is no dot, when the component starts with its only
    dot, or when the component is two dots. *)
Definition extname (p : string) : string :=
  let rc := lastComponentRev true (rev (list_ascii_of_string p)) in
  let st := escan 0 rc {| startDot := None; preDotState := 0 |} in
  match startDot st with
  | None => EmptyString
  | Some k =>
      if (preDotState st =? 0)%Z
         || ((preDotState st =? 1)%Z && (k =? 0)%nat && (List.length rc =? k + 2)%nat)
      then EmptyString
      else string_of_list_ascii (rev (firstn (S k) rc))
  end.

(** A text without a dot and without a slash. *)
Fixpoint isWord (w : string) : bool :=
  match w with
  | EmptyString => true
  | String c r => negb (JS.isChar c dot) && negb (JS.isChar c slash) && isWord r
  end.

(** *** Paths as lists of segments

    What [normalize] computes, said on the segments of a path: the texts
    between its slashes.  These definitions follow the documentation of
    [path.normalize]; the properties relate them to the loop above. *)

Fixpoint noSlash (s : string) : bool :=
  match s with
  | EmptyString => true
  | String c r => negb (isPosixPathSeparator c) && noSlash r
  end.

(** The segments of [p], the first of them after the text [cur]. *)
Fixpoint splitAcc (cur p : string) : list string :=
  match p with
  | EmptyString => [cur]
  | String c r =>
      if isPosixPathSeparator c then cur :: splitAcc EmptyString r
      else splitAcc (cur ++ String c EmptyString) r
  end.

Definition segments (p : string) : list string := splitAcc EmptyString p.

(** The segments joined with slashes. *)
Fixpoint joinSegs (l : list string) : string :=
  match l with
  | [] => EmptyString
  | x :: r =>
      match r with
      | [] => x
      | _ :: _ => x ++ "/" ++ joinSegs r
      end
  end.

(** A name: a segment that is not empty, holds no slash and is neither
    one dot nor two. *)
Definition isName (s : string) : bool :=
  negb (String.eqb s EmptyString) && noSlash s
  && negb (String.eqb s ".") && negb (String.eqb s "..").

(** Reading one segment below a root: an empty segment and one dot change
    nothing, two dots give up the last name (if there is one), a name is
    added. *)
Definition stepSeg (names : list string) (s : string) : list string :=
  if String.eqb s EmptyString || String.eqb s "." then names
  else if String.eqb s ".." then removelast names
  else (names ++ [s])%list.

Definition resolveSegs (l : list string) : list string := fold_left stepSeg l [].

(** The value of [dots] once the segment [s] is read: the number of its
    characters when they are all dots, and [-1] otherwise. *)
Fixpoint onlyDots (s : string) : bool :=
  match s with
  | EmptyString => true
  | String c r => JS.isChar c dot && onlyDots r
  end.

Definition dotsOf (s : string) : Z :=
  if onlyDots s then Z.of_nat (String.length s) else (-1)%Z.

(** The state of the loop of [normalizeString] stands for the names read
    so far and the segment [cur] that is being read. *)
Definition tracks (st : nstate) (names : list string) (cur : string) : Prop :=
  res st = joinSegs names
  /\ lastSegmentLength st = String.length (last names EmptyString)
  /\ seg st = cur
  /\ dots st = dotsOf cur
  /\ Forall (fun s => isName s = true) names.

(** A segment that is kept in a path that is not below a root: it is not
    empty, holds no slash and is not one dot; it may be two dots. *)
Definition isSeg (s : string) : bool :=
  negb (String.eqb s EmptyString) && noSlash s && negb (String.eqb s ".").

(** Reading one segment of a path that is not below a root: two dots give
    up the name before them, and are kept when there is none. *)
Definition stepSegUp (names : list string) (s : string) : list string :=
  if String.eqb s EmptyString || String.eqb s "." then names
  else if String.eqb s ".." then
    match names with
    | [] => [".."]
    | _ :: _ =>
        if String.eqb (last names EmptyString) ".."
        then (names ++ [".."])%list else removelast names
    end
  else (names ++ [s])%list.

Definition resolveSegsUp (l : list string) : list string := fold_left stepSegUp l [].

Definition tracksUp (st : nstate) (names : list string) (cur : string) : Prop :=
  res st = joinSegs names
  /\ lastSegmentLength st = String.length (last names EmptyString)
  /\ seg st = cur
  /\ dots st = dotsOf cur
  /\ Forall (fun s => isSeg s = true) names.

(** No segment of the list is two dots. *)
Definition noUp (l : list string) : bool :=
  forallb (fun s => negb (String.eqb s "..")) l.

(** The two dots of the list all stand at its head. *)
Fixpoint upsFirst (l : list string) : bool :=
  match l with
  | [] => true
  | s :: r => if String.eqb s ".." then upsFirst r else noUp r
  end.

End Path.

(** ** Buffers and text *)

Module Buffer.

Definition inRange (lo hi : nat) (c : ascii) : bool :=
  let n := nat_of_ascii c in ((lo <=? n) && (n <=? hi))%nat.

(** A continuation byte. *)
Definition cont (c : ascii) : bool := inRange 128 191 c.

Definition ofBytes (l : list nat) : string :=
  string_of_list_ascii (map ascii_of_nat l).

(** U+FFFD, the replacement character, in UTF-8. *)
Definition replacement : string := ofBytes [239; 191; 189].

(** The bounds of the byte that may follow the lead byte [n] of a sequence
    of three or four bytes (no overlong forms, no surrogates, nothing
    above U+10FFFF). *)
Definition lower (n : nat) : nat :=
  if (n =? 224)%nat then 160 else if (n =? 240)%nat then 144 else 128.
Definition upper (n : nat) : nat :=
  if (n =? 237)%nat then 159 else if (n =? 244)%nat then 143 else 191.

(** [buf.toString()]: the bytes decoded as UTF-8.  A well-formed sequence
    stands for itself; each maximal ill-formed run is replaced by U+FFFD
    and decoding resumes at the byte that broke the sequence. *)
Fixpoint toString (b : string) : string :=
  match b with
  | EmptyString => EmptyString
  | String c r =>
      let n := nat_of_ascii c in
      if (n <? 128)%nat then String c (toString r)
      else if inRange 194 223 c then
        match r with
        | String c1 r1 =>
            if cont c1 then String c (String c1 (toString r1))
            else replacement ++ toString r
        | EmptyString => replacement
        end
      else if inRange 224 239 c then
        match r with
        | String c1 r1 =>
            if inRange (lower n) (upper n) c1 then
              match r1 with
              | String c2 r2 =>
                  if cont c2 then String c (String c1 (String c2 (toString r2)))
                  else replacement ++ toString r1
              | EmptyString => replacement
              end
            else replacement ++ toString r
        | EmptyString => replacement
        end
      else if inRange 240 244 c then
        match r with
        | String c1 r1 =>
            if inRange (lower n) (upper n) c1 then
              match r1 with
              | String c2 r2 =>
                  if cont c2 then
                    match r2 with
                    | String c3 r3 =>
                        if cont c3
                        then String c (String c1 (String c2 (String c3 (toString r3))))
                        else replacement ++ toString r2
                    | EmptyString => replacement
                    end
                  else replacement ++ toString r1
              | EmptyString => replacement
              end
            else replacement ++ toString r
        | EmptyString => replacement
        end
      else replacement ++ toString r
  end.

(** One step of the decoder, with the decoding of the bytes that follow as
    [k]; [toString] is this step with itself for [k]. *)
Definition decodeStep (k : string -> string) (b : string) : string :=
  match b with
  | EmptyString => EmptyString
  | String c r =>
      let n := nat_of_ascii c in
      if (n <? 128)%nat then String c (k r)
      else if inRange 194 223 c then
        match r with
        | String c1 r1 =>
            if cont c1 then String c (String c1 (k r1))
            else replacement ++ k r
        | EmptyString => replacement
        end
      else if inRange 224 239 c then
        match r with
        | String c1 r1 =>
            if inRange (lower n) (upper n) c1 then
              match r1 with
              | String c2 r2 =>
                  if cont c2 then String c (String c1 (String c2 (k r2)))
                  else replacement ++ k r1
              | EmptyString => replacement
              end
            else replacement ++ k r
        | EmptyString => replacement
        end
      else if inRange 240 244 c then
        match r with
        | String c1 r1 =>
            if inRange (lower n) (upper n) c1 then
              match r1 with
              | String c2 r2 =>
                  if cont c2 then
                    match r2 with
                    | String c3 r3 =>
                        if cont c3
                        then String c (String c1 (String c2 (String c3 (k r3))))
                        else replacement ++ k r2
                    | EmptyString => replacement
                    end
                  else replacement ++ k r1
              | EmptyString => replacement
              end
            else replacement ++ k r
        | EmptyString => replacement
        end
      else replacement ++ k r
  end.

(** [Buffer.from(s)]: the UTF-8 encoding of the text, which is how the
    text is held here. *)
Definition from (s : string) : string := s.

(** Well-formed UTF-8 (RFC 3629, section 4). *)
Fixpoint wellFormed (b : string) : bool :=
  match b with
  | EmptyString => true
  | String c r =>
      let n := nat_of_ascii c in
      if (n <? 128)%nat then wellFormed r
      else if inRange 194 223 c then
        match r with
        | String c1 r1 => cont c1 && wellFormed r1
        | EmptyString => false
        end
      else if inRange 224 239 c then
        match r with
        | String c1 (String c2 r2) =>
            inRange (lower n) (upper n) c1 && cont c2 && wellFormed r2
        | _ => false
        end
      else if inRange 240 244 c then
        match r with
        | String c1 (String c2 (String c3 r3)) =>
            inRange (lower n) (upper n) c1 && cont c2 && cont c3 && wellFormed r3
        | _ => false
        end
      else false
  end.

(** A byte below 128: an ASCII character, a sequence of its own. *)
Definition isAscii (c : ascii) : bool := (nat_of_ascii c <? 128)%nat.

(** The text is empty or starts with an ASCII character. *)
Definition asciiHead (s : string) : bool :=
  match s with
  | EmptyString => true
  | String c _ => isAscii c
  end.

Fixpoint allAscii (s : string) : bool :=
  match s with
  | EmptyString => true
  | String c r => isAscii c && allAscii r
  end.

End Buffer.

(** ** The server *)

Module Server.

Import JS.

Definition dq : string := Buffer.ofBytes [34].
Definition ofBytes := Buffer.ofBytes.

(** The process environment: the variables read by [config] and the
    directory of [server.js]. *)
Record Env : Type := {
  PORT : option string;
  HOST : option string;
  dirname : string
}.

Record Config : Type := {
  port : value;
  host : string;
  staticDir : string
}.

Definition config (e : Env) : Config :=
  {| port := orElse Str (PORT e) (Num 3000);
     host := orElse (fun s => s) (HOST e) "localhost";
     staticDir := Path.join (dirname e) "src" |}.

Definition customMimeTypes : list (string * string) :=
  [ (".html", "text/html; charset=utf-8");
    (".css", "text/css; charset=utf-8");
    (".js", "application/javascript; charset=utf-8");
    (".json", "application/json; charset=utf-8");
    (".png", "image/png");
    (".jpg", "image/jpeg");
    (".jpeg", "image/jpeg");
    (".gif", "image/gif");
    (".svg", "image/svg+xml; charset=utf-8");
    (".ico", "image/x-icon");
    (".woff", "font/woff");
    (".woff2", "font/woff2");
    (".ttf", "font/ttf");
    (".eot", "application/vnd.ms-fontobject") ].

(** [obj[key]] on an object literal: the value of the own property, if
    any.  The keys asked for are extensions, which are empty or start with
    a dot, so no inherited property is ever hit. *)
Fixpoint property (obj : list (string * string)) (key : string) : option string :=
  match obj with
  | [] => None
  | (k, v) :: rest => if String.eqb k key then Some v else property rest key
  end.

(** The port the push channel is given, [config.port + 1]. *)
Definition wsPort (c : Config) : value := add (port c) (Num 1).

Definition liveReloadScriptHead : string :=
  "
<script>
(function() {
    'use strict';
    
    let reconnectAttempts = 0;
    const maxReconnectAttempts = 10;
    const reconnectInterval = 2000;
    
    function connect() {
        const ws = new WebSocket('ws://localhost:".

Definition liveReloadScriptTail : string :=
  "');
        
        ws.onopen = function() {
            console.log('[Live Reload] Connected to server');
            reconnectAttempts = 0;
        };
        
        ws.onmessage = function(event) {
            if (event.data === 'reload') {
                console.log('[Live Reload] Reloading page...');
                window.location.reload();
            }
        };
        
        ws.onclose = function() {
            console.log('[Live Reload] Connection closed');
            
            if (reconnectAttempts < maxReconnectAttempts) {
                setTimeout(() => {
                    reconnectAttempts++;
                    console.log('[Live Reload] Attempting to reconnect... (' + reconnectAttempts + '/' + maxReconnectAttempts + ')');
                    connect();
                }, reconnectInterval);
            } else {
                console.log('[Live Reload] Max reconnection attempts reached');
            }
        };
        
        ws.onerror = function(error) {
            console.error('[Live Reload] WebSocket error:', error);
        };
    }
    
    // Start connection when DOM is ready
    if (document.readyState === 'loading') {
        document.addEventListener('DOMContentLoaded', connect);
    } else {
        connect();
    }
})();
</script>
".

Definition liveReloadScript (c : Config) : string :=
  liveReloadScriptHead ++ toString (wsPort c) ++ liveReloadScriptTail.

Definition notFoundHead : string :=
  "
                <!DOCTYPE html>
                <html lang="
  ++ dq
  ++ "en"
  ++ dq
  ++ ">
                <head>
                    <meta charset="
  ++ dq
  ++ "UTF-8"
  ++ dq
  ++ ">
                    <meta name="
  ++ dq
  ++ "viewport"
  ++ dq
  ++ " content="
  ++ dq
  ++ "width=device-width, initial-scale=1.0"
  ++ dq
  ++ ">
                    <title>404 - File Not Found</title>
                    <style>
                        body { 
                            font-family: -apple-system, BlinkMacSystemFont, 'Segoe UI', Roboto, sans-serif; 
                            text-align: center; 
                            padding: 50px; 
                            color: #333; 
                        }
                        h1 { color: #e74c3c; }
                        .back-link { 
                            display: inline-block; 
                            margin-top: 20px; 
                            padding: 10px 20px; 
                            background: #4a90e2; 
                            color: white; 
                            text-decoration: none; 
                            border-radius: 5px; 
                        }
                    </style>
                </head>
                <body>
                    <h1>404 - File Not Found</h1>
                    <p>The requested file <code>".

Definition notFoundTail : string :=
  "</code> could not be found.</p>
                    <a href="
  ++ dq
  ++ "/"
  ++ dq
  ++ " class="
  ++ dq
  ++ "back-link"
  ++ dq
  ++ ">"
  ++ ofBytes [226; 128; 154; 195; 156; 195; 170]
  ++ " Back to Home</a>
                </body>
                </html>
            ".

(** The body of the 404 response: the page with the path put in. *)
Definition notFoundPage (filePath : string) : string :=
  notFoundHead ++ filePath ++ notFoundTail.

(** *** The HTTP side *)

Record Response : Type := {
  status : Z;
  headers : list (string * value);
  body : string
}.

(** [headers[name]]. *)
Fixpoint header (name : string) (h : list (string * value)) : option value :=
  match h with
  | [] => None
  | (k, v) :: rest => if String.eqb k name then Some v else header name rest
  end.

Record Request : Type := {
  method : string;
  url : string
}.

(** [s.replace(/^(\.\.[\/\\])+/, '')]: the leading run of two dots followed
    by a slash or a backslash is removed. *)
Fixpoint stripParents (s : string) : string :=
  match s with
  | String a (String b (String c r)) =>
      if isChar a Path.dot && isChar b Path.dot
         && (isChar c Path.slash || isChar c "\")
      then stripParents r else s
  | _ => s
  end.

(** [s.replace(/^\//, '')]. *)
Definition stripLeadingSlash (s : string) : string :=
  match s with
  | String a r => if isChar a Path.slash then r else s
  | EmptyString => s
  end.

(** The path the dispatcher hands to [serveFile]. *)
Definition resolvePath (rawUrl : string) : string :=
  let urlPath := splitHead "?" rawUrl in
  let urlPath := stripParents (Path.normalize urlPath) in
  let urlPath :=
    if String.eqb urlPath "/" || endsWithChar Path.slash urlPath
    then Path.join urlPath "index.html" else urlPath in
  stripLeadingSlash urlPath.

Section Handlers.

(** [mimeTypes.lookup] of the mime-types package: a type, or [false]. *)
Variable mimeLookup : string -> option string.
Variable env : Env.
(** [fs.readFile]: the bytes of the file, or an error. *)
Variable readFile : string -> option string.
(** The push channel server, [undefined] until it is created. *)
Variable wsServer : option value.

Definition getMimeType (filePath : string) : string :=
  let ext := toLowerCase (Path.extname filePath) in
  orElse (fun s => s) (property customMimeTypes ext)
    (orElse (fun s => s) (mimeLookup filePath) "application/octet-stream").

(** The file [serveFile] reads. *)
Definition fullPath (filePath : string) : string :=
  Path.join (staticDir (config env)) filePath.

Definition isActive : bool :=
  match wsServer with Some _ => true | None => false end.

(** [serveFile(res, filePath)]: what is written to [res]. *)
Definition serveFile (filePath : string) : Response :=
  match readFile (fullPath filePath) with
  | None =>
      {| status := 404;
         headers := [("Content-Type", Str "text/html; charset=utf-8")];
         body := notFoundPage filePath |}
  | Some data =>
      let mimeType := getMimeType filePath in
      let hs :=
        [ ("Content-Type", Str mimeType);
          ("Cache-Control", Str "no-cache, no-store, must-revalidate");
          ("Pragma", Str "no-cache");
          ("Expires", Str "0") ] in
      if includes "text/html" mimeType && isActive then
        let htmlContent := Buffer.toString data in
        let modifiedHtml :=
          replace "</body>" (liveReloadScript (config env) ++ "</body>") htmlContent in
        let data' := Buffer.from modifiedHtml in
        {| status := 200;
           headers := (hs ++ [("Content-Length", Num (Z.of_nat (String.length data')))])%list;
           body := data' |}
      else
        {| status := 200; headers := hs; body := data |}
  end.

(** The request listener of [createHttpServer]: the line it logs (with the
    time [now] as text) and the response. *)
Definition handle (now : string) (req : Request) : string * Response :=
  ("[" ++ now ++ "] " ++ method req ++ " " ++ url req,
   serveFile (resolvePath (url req))).

End Handlers.

(** [createWebSocketServer]: the server is set when the ws package loads
    and the server could be built, and left [undefined] otherwise. *)
Definition createWebSocketServer (env : Env) (built : bool) : option value :=
  if built then Some (wsPort (config env)) else None.

(** *** The change notifier *)

(** A connection of the push channel: which one, and its [readyState]. *)
Record Socket : Type := {
  sid : nat;
  readyState : Z
}.

(** What the notifier does to the outside: a message sent on a connection,
    a line on the console. *)
Inductive Effect : Type :=
| Send (to : nat) (message : string)
| Log (line : string).

Record Notifier : Type := {
  wsConnections : list Socket;
  trace : list Effect
}.

(** The [connection] event and the [close] event of a connection. *)
Definition connect (ws : Socket) (n : Notifier) : Notifier :=
  let conns := (wsConnections n ++ [ws])%list in
  {| wsConnections := conns;
     trace := (trace n ++
       [Log ("[Live Reload] Client connected ("
             ++ toString (Num (Z.of_nat (List.length conns))) ++ " total)")])%list |}.

Definition disconnect (ws : nat) (n : Notifier) : Notifier :=
  let conns := filter (fun conn => negb (sid conn =? ws)%nat) (wsConnections n) in
  {| wsConnections := conns;
     trace := (trace n ++
       [Log ("[Live Reload] Client disconnected ("
             ++ toString (Num (Z.of_nat (List.length conns))) ++ " remaining)")])%list |}.

(** The body of the [forEach] of [broadcastReload]. *)
Definition sendReload (ws : Socket) : list Effect :=
  if (readyState ws =? 1)%Z then [Send (sid ws) "reload"] else [].

Definition broadcastReload (n : Notifier) : Notifier :=
  if (0 <? List.length (wsConnections n))%nat then
    {| wsConnections := wsConnections n;
       trace := (trace n ++ flat_map sendReload (wsConnections n) ++
         [Log ("[Live Reload] Reload signal sent to "
               ++ toString (Num (Z.of_nat (List.length (wsConnections n))))
               ++ " client(s)")])%list |}
  else n.

(** *** The file watcher *)

Section Watching.

(** [path.relative(process.cwd(), filePath)], used for the console only. *)
Variable relative : string -> string.

(** A pending [setTimeout]: when it is due and what its callback logs. *)
Record Timer : Type := {
  due : Z;
  eventType : string;
  filePath : string
}.

(** The watcher and what it drives: the timer handle [reloadTimer] (none
    when it is unset, cleared or has fired), the notifier, and the times at
    which [broadcastReload] was called. *)
Record Watcher : Type := {
  reloadTimer : option Timer;
  notifier : Notifier;
  broadcasts : list Z
}.

Definition debounce : Z := 100.

(** [scheduleReload(eventType, filePath)] at time [now]: the pending timer
    is cleared and a new one is set. *)
Definition scheduleReload (now : Z) (ev path : string) (w : Watcher) : Watcher :=
  {| reloadTimer := Some {| due := now + debounce; eventType := ev; filePath := path |};
     notifier := notifier w;
     broadcasts := broadcasts w |}.

(** The callback of the timer, run at time [t]. *)
Definition fire (t : Z) (tm : Timer) (w : Watcher) : Watcher :=
  let n := notifier w in
  {| reloadTimer := None;
     notifier :=
       broadcastReload
         {| wsConnections := wsConnections n;
            trace := (trace n ++
              [Log ("[File Watcher] " ++ eventType tm ++ ": "
                    ++ relative (filePath tm))])%list |};
     broadcasts := (broadcasts w ++ [t])%list |}.

(** The event loop reaches time [t]: a timer that is due by then runs, at
    the time it is due. *)
Definition advance (t : Z) (w : Watcher) : Watcher :=
  match reloadTimer w with
  | Some tm => if (due tm <=? t)%Z then fire (due tm) tm w else w
  | None => w
  end.

(** A watcher event: when it arrives, its kind and the file. *)
Inductive Kind : Type := Change | Add | Unlink.

Record WatchEvent : Type := {
  at_ : Z;
  kind : Kind;
  file : string
}.

(** The listeners registered on the watcher. *)
Definition label (k : Kind) : string :=
  match k with
  | Change => "Changed"
  | Add => "Added"
  | Unlink => "Removed"
  end.

Definition onEvent (e : WatchEvent) (w : Watcher) : Watcher :=
  scheduleReload (at_ e) (label (kind e)) (file e) (advance (at_ e) w).

(** The events of a run in the order they arrive. *)
Fixpoint run (events : list WatchEvent) (w : Watcher) : Watcher :=
  match events with
  | [] => w
  | e :: rest => run rest (onEvent e w)
  end.

End Watching.

(** *** What the properties observe *)

(** The messages of a trace, with the connection each went to. *)
Definition sends (t : list Effect) : list (nat * string) :=
  flat_map (fun e => match e with
                     | Send to m => [(to, m)]
                     | Log _ => []
                     end) t.

(** [readyState === 1], [WebSocket.OPEN]. *)
Definition isOpen (ws : Socket) : bool := (readyState ws =? 1)%Z.

(** The file [p] is the directory [root] or lies below it. *)
Definition confined (root p : string) : bool :=
  String.eqb p root || startsWith (root ++ "/") p.

(** Each event of [es] arrives less than the debounce delay after the one
    before it, the first of them after an event at time [t]. *)
Fixpoint chained (t : Z) (es : list WatchEvent) : bool :=
  match es with
  | [] => true
  | e :: rest =>
      (t <=? at_ e)%Z && (at_ e <? t + debounce)%Z && chained (at_ e) rest
  end.

(** The last event of a run that starts with [e]. *)
Fixpoint lastEvent (e : WatchEvent) (rest : list WatchEvent) : WatchEvent :=
  match rest with
  | [] => e
  | e' :: rest' => lastEvent e' rest'
  end.

(** An environment that sets neither PORT nor HOST, with the server kept
    in /srv/site. *)
Definition sampleEnv : Env :=
  {| PORT := None; HOST := None; dirname := "/srv/site" |}.

(** A file system with one readable file. *)
Definition oneFile (path data : string) : string -> option string :=
  fun p => if String.eqb p path then Some data else None.

(** The text [s] holds no dollar sign. *)
Definition plain (s : string) : bool := negb (includes "$" s).

(** The messages one call of [broadcastReload] sends: what it adds to the
    trace. *)
Definition broadcastSends (n : Notifier) : list (nat * string) :=
  sends (skipn (List.length (trace n)) (trace (broadcastReload n))).

(** The connections of the set, by number. *)
Definition connected (n : Notifier) : list nat := map sid (wsConnections n).

(** Each event of [es] arrives at least the debounce delay after the one
    before it, the first of them after an event at time [t]. *)
Fixpoint spaced (t : Z) (es : list WatchEvent) : bool :=
  match es with
  | [] => true
  | e :: rest => (t + debounce <=? at_ e)%Z && spaced (at_ e) rest
  end.

(** The time of the last event of [es], [t] when there is none. *)
Fixpoint lastAt (t : Z) (es : list WatchEvent) : Z :=
  match es with
  | [] => t
  | e :: rest => lastAt (at_ e) rest
  end.

(** The number of timers that are set. *)
Definition pending (w : Watcher) : nat :=
  match reloadTimer w with Some _ => 1 | None => 0 end.

(** The events arrive in the order of their times, none before [t]. *)
Fixpoint ordered (t : Z) (es : list WatchEvent) : bool :=
  match es with
  | [] => true
  | e :: rest => (t <=? at_ e)%Z && ordered (at_ e) rest
  end.

End Server.

(** ** The client script *)

(** The script [liveReloadScript] puts into a page, as run by the browser:
    its counter, and what the page has outstanding. *)
Module Client.

Definition maxReconnectAttempts : nat := 10.
Definition reconnectInterval : Z := 2000.

Record State : Type := {
  reconnectAttempts : nat;
  (** sockets made by [connect] that have not closed yet *)
  sockets : nat;
  (** reconnect timers set by [onclose] that have not run yet *)
  timers : nat;
  (** calls of [connect] *)
  connects : nat;
  (** calls of [window.location.reload] *)
  reloads : nat;
  console : list string
}.

Definition say (line : string) (st : State) : State :=
  {| reconnectAttempts := reconnectAttempts st; sockets := sockets st;
     timers := timers st; connects := connects st; reloads := reloads st;
     console := (console st ++ [line])%list |}.

(** [connect()]: a socket is made. *)
Definition connect (st : State) : State :=
  {| reconnectAttempts := reconnectAttempts st; sockets := S (sockets st);
     timers := timers st; connects := S (connects st); reloads := reloads st;
     console := console st |}.

Definition onopen (st : State) : State :=
  let st := say "[Live Reload] Connected to server" st in
  {| reconnectAttempts := 0; sockets := sockets st;
     timers := timers st; connects := connects st; reloads := reloads st;
     console := console st |}.

Definition onmessage (data : string) (st : State) : State :=
  if String.eqb data "reload" then
    let st := say "[Live Reload] Reloading page..." st in
    {| reconnectAttempts := reconnectAttempts st; sockets := sockets st;
       timers := timers st; connects := connects st; reloads := S (reloads st);
       console := console st |}
  else st.

(** [onclose]: the socket is gone; a timer is set unless the counter has
    reached its bound. *)
Definition onclose (st : State) : State :=
  let st := say "[Live Reload] Connection closed" st in
  if (reconnectAttempts st <? maxReconnectAttempts)%nat then
    {| reconnectAttempts := reconnectAttempts st; sockets := pred (sockets st);
       timers := S (timers st); connects := connects st; reloads := reloads st;
       console := console st |}
  else
    say "[Live Reload] Max reconnection attempts reached"
      {| reconnectAttempts := reconnectAttempts st; sockets := pred (sockets st);
         timers := timers st; connects := connects st; reloads := reloads st;
         console := console st |}.

(** The callback of the reconnect timer. *)
Definition ontimer (st : State) : State :=
  let n := S (reconnectAttempts st) in
  connect
    (say ("[Live Reload] Attempting to reconnect... ("
          ++ JS.toString (JS.Num (Z.of_nat n)) ++ "/"
          ++ JS.toString (JS.Num (Z.of_nat maxReconnectAttempts)) ++ ")")
       {| reconnectAttempts := n; sockets := sockets st;
          timers := pred (timers st); connects := connects st;
          reloads := reloads st; console := console st |}).

(** What can happen to the page.  An event of a socket needs a socket, a
    timer can only run when one is set: an event that cannot happen leaves
    the state as it is. *)
Inductive Event : Type :=
| Opened
| Message (data : string)
| Closed
| Tick.

Definition step (st : State) (e : Event) : State :=
  match e with
  | Opened => if (0 <? sockets st)%nat then onopen st else st
  | Message d => if (0 <? sockets st)%nat then onmessage d st else st
  | Closed => if (0 <? sockets st)%nat then onclose st else st
  | Tick => if (0 <? timers st)%nat then ontimer st else st
  end.

(** The script starts with one call of [connect]. *)
Definition start : State :=
  connect {| reconnectAttempts := 0; sockets := 0; timers := 0;
             connects := 0; reloads := 0; console := [] |}.

Definition run (events : list Event) : State := fold_left step events start.

Definition isOpened (e : Event) : bool :=
  match e with Opened => true | _ => false end.

Definition isClosed (e : Event) : bool :=
  match e with Closed => true | _ => false end.

(** What holds of the page as long as no socket has opened: one socket or
    one timer at most, one call of [connect] for the start and one for
    each count of the counter, and a timer only while the counter is
    below its bound. *)
Definition chain (st : State) : Prop :=
  sockets st + timers st <= 1
  /\ connects st = S (reconnectAttempts st)
  /\ reconnectAttempts st <= maxReconnectAttempts
  /\ (timers st = 1 ->
      reconnectAttempts st < maxReconnectAttempts).

End Client.

(** * Properties *)

Import Server.

(** ** Strings *)

Lemma append_nil_r (s : string) : s ++ EmptyString = s.
Proof. induction s as [|c s IH]; simpl; [reflexivity | now rewrite IH]. Qed.

Lemma append_assoc (a b c : string) : (a ++ b) ++ c = a ++ (b ++ c).
Proof. induction a as [|x a IH]; simpl; [reflexivity | now rewrite IH]. Qed.

Lemma length_append (a b : string) :
  String.length (a ++ b) = String.length a + String.length b.
Proof. induction a as [|x a IH]; simpl; [reflexivity | now rewrite IH]. Qed.

Lemma isChar_refl (c : ascii) : JS.isChar c c = true.
Proof. apply Ascii.eqb_refl. Qed.

Lemma startsWith_refl_app (p s : string) : JS.startsWith p (p ++ s) = true.
Proof.
  induction p as [|c p IH]; simpl; [reflexivity|].
  now rewrite isChar_refl, IH.
Qed.

(** Only the first [length p] characters of a text decide whether it
    starts with [p]. *)
Lemma startsWith_app_long (p x y : string) :
  String.length p <= String.length x ->
  JS.startsWith p (x ++ y) = JS.startsWith p x.
Proof.
  revert x; induction p as [|c p IH]; intros x H; [reflexivity|].
  destruct x as [|d x]; simpl in *; [lia|].
  rewrite IH by lia. reflexivity.
Qed.

Lemma take_app_length (a b : string) : JS.take (String.length a) (a ++ b) = a.
Proof. induction a as [|x a IH]; simpl; [now destruct b | now rewrite IH]. Qed.

Lemma drop_app_length (a b : string) : JS.drop (String.length a) (a ++ b) = b.
Proof. induction a as [|x a IH]; simpl; [now destruct b | exact IH]. Qed.

Lemma drop_add (n m : nat) (s : string) : JS.drop (n + m) s = JS.drop m (JS.drop n s).
Proof.
  revert s; induction n as [|n IH]; intros s; simpl; [reflexivity|].
  destruct s as [|c s]; [now destruct m | apply IH].
Qed.

(** Where [indexOf] finds the pattern, the pattern stands. *)
Lemma indexOf_split (p s : string) (i : nat) :
  JS.indexOf p s = Some i ->
  s = JS.take i s ++ p ++ JS.drop (i + String.length p) s.
Proof.
  revert i; induction s as [|c s IH]; intros i.
  - destruct p; simpl; [|discriminate].
    intros [= <-]. reflexivity.
  - cbn [JS.indexOf]. destruct (JS.startsWith p (String c s)) eqn:E.
    + intros [= <-]. cbn [JS.take plus]. simpl append.
      clear IH. revert E. generalize (String c s). clear.
      induction p as [|a p IH]; intros s E; [reflexivity|].
      destruct s as [|b s]; simpl in E; [discriminate|].
      apply andb_prop in E as [E1 E2]. apply Ascii.eqb_eq in E1. subst b.
      simpl. f_equal. now apply IH.
    + destruct (JS.indexOf p s) as [j|]; simpl; [|discriminate].
      intros [= <-]. simpl. f_equal. now apply IH.
Qed.

(** [indexOf] finds the first place: the pattern starts nowhere before. *)
Lemma indexOf_least (p s : string) (i j : nat) :
  JS.indexOf p s = Some i -> j < i -> JS.startsWith p (JS.drop j s) = false.
Proof.
  revert i j; induction s as [|c s IH]; intros i j.
  - destruct p; simpl; [intros [= <-]; lia | discriminate].
  - cbn [JS.indexOf]. destruct (JS.startsWith p (String c s)) eqn:E.
    + intros [= <-]; lia.
    + destruct (JS.indexOf p s) as [k|] eqn:K; simpl; [|discriminate].
      intros [= <-] Hj. destruct j as [|j]; [exact E|].
      simpl. apply (IH k); [reflexivity | lia].
Qed.

Lemma startsWith_tag_cons (c : ascii) (a b : string) :
  JS.startsWith "</body>" (String c (a ++ "</body>" ++ b))
  = JS.startsWith "</body>" (String c (a ++ "</body")).
Proof.
  assert (E : String c (a ++ "</body>" ++ b)
              = String c (a ++ "</body") ++ (">" ++ b)).
  { change (String c (a ++ "</body") ++ (">" ++ b))
      with (String c ((a ++ "</body") ++ (">" ++ b))).
    rewrite append_assoc. reflexivity. }
  rewrite E. apply startsWith_app_long.
  cbn [String.length]. rewrite length_append. cbn [String.length]. lia.
Qed.

(** The text before the first occurrence, with the pattern short of its
    last character, holds no occurrence. *)
Lemma indexOf_first (a b : string) :
  JS.includes "</body>" (a ++ "</body") = false ->
  JS.indexOf "</body>" (a ++ "</body>" ++ b) = Some (String.length a).
Proof.
  induction a as [|c a IH]; intros H.
  - reflexivity.
  - unfold JS.includes in H.
    change (String c a ++ "</body") with (String c (a ++ "</body")) in H.
    change (String c a ++ "</body>" ++ b) with (String c (a ++ "</body>" ++ b)).
    cbn [JS.indexOf] in *. rewrite startsWith_tag_cons.
    destruct (JS.startsWith "</body>" (String c (a ++ "</body"))); [discriminate|].
    rewrite IH; [reflexivity|].
    unfold JS.includes.
    destruct (JS.indexOf "</body>" (a ++ "</body")); [discriminate | reflexivity].
Qed.

Lemma plain_cons (c : ascii) (r : string) :
  plain (String c r) = true -> JS.isChar c "$" = false /\ plain r = true.
Proof.
  unfold plain, JS.includes. cbn [JS.indexOf JS.startsWith].
  unfold JS.isChar. rewrite (Ascii.eqb_sym "$" c), andb_true_r.
  destruct (Ascii.eqb c "$"); [discriminate|].
  destruct (JS.indexOf "$" r); simpl; [discriminate | now split].
Qed.

Lemma plain_app (a b : string) : plain a = true -> plain b = true -> plain (a ++ b) = true.
Proof.
  intros Ha Hb. induction a as [|c a IH]; [exact Hb|].
  apply plain_cons in Ha as [Hc Ha]. specialize (IH Ha).
  change (String c a ++ b) with (String c (a ++ b)).
  revert IH. unfold plain, JS.includes. cbn [JS.indexOf JS.startsWith].
  unfold JS.isChar in *. rewrite (Ascii.eqb_sym "$" c), Hc. simpl.
  now destruct (JS.indexOf "$" (a ++ b)).
Qed.

(** A replacement text without a dollar sign stands for itself. *)
Lemma getSubstitution_plain (m b a r : string) :
  plain r = true -> JS.getSubstitution m b a r = r.
Proof.
  induction r as [|c r IH]; intros H; [reflexivity|].
  apply plain_cons in H as [Hc Hr].
  cbn [JS.getSubstitution]. rewrite Hc, IH by exact Hr. reflexivity.
Qed.

Lemma replace_absent (p r s : string) :
  JS.includes p s = false -> JS.replace p r s = s.
Proof.
  unfold JS.includes, JS.replace. now destruct (JS.indexOf p s).
Qed.

(** The first closing body tag is replaced, the text around it is kept. *)
Lemma replace_first (r a b : string) :
  JS.includes "</body>" (a ++ "</body") = false ->
  plain r = true ->
  JS.replace "</body>" r (a ++ "</body>" ++ b) = a ++ r ++ b.
Proof.
  intros Hfirst Hr. unfold JS.replace.
  rewrite (indexOf_first a b Hfirst).
  rewrite take_app_length, drop_add, drop_app_length.
  rewrite (drop_app_length "</body>" b).
  rewrite getSubstitution_plain by exact Hr. reflexivity.
Qed.

(** ** Buffers *)

Ltac split_andb :=
  repeat match goal with
         | H : _ && _ = true |- _ => apply andb_prop in H; destruct H
         end.

Lemma toString_wellFormed_upto (n : nat) :
  forall b, String.length b <= n -> Buffer.wellFormed b = true -> Buffer.toString b = b.
Proof.
  induction n as [|n IH]; intros b Hn Hw.
  - destruct b; [reflexivity | simpl in Hn; lia].
  - destruct b as [|c r]; [reflexivity|].
    cbn [Buffer.toString Buffer.wellFormed] in *. cbn [String.length] in Hn.
    destruct (nat_of_ascii c <? 128)%nat.
    { rewrite IH; [reflexivity | lia | exact Hw]. }
    destruct (Buffer.inRange 194 223 c).
    { destruct r as [|c1 r1]; [discriminate|]. split_andb.
      cbn [String.length] in Hn.
      match goal with H : Buffer.cont c1 = true |- _ => rewrite H end.
      rewrite IH; [reflexivity | lia | assumption]. }
    destruct (Buffer.inRange 224 239 c).
    { destruct r as [|c1 [|c2 r2]]; try discriminate. split_andb.
      cbn [String.length] in Hn.
      repeat match goal with H : _ = true |- _ => rewrite H; clear H end.
      rewrite IH; [reflexivity | lia | assumption]. }
    destruct (Buffer.inRange 240 244 c); [|discriminate].
    destruct r as [|c1 [|c2 [|c3 r3]]]; try discriminate. split_andb.
    cbn [String.length] in Hn.
    repeat match goal with H : _ = true |- _ => rewrite H; clear H end.
    rewrite IH; [reflexivity | lia | assumption].
Qed.

(** Decoding well-formed UTF-8 and encoding it again gives the bytes
    back. *)
Lemma toString_wellFormed (b : string) :
  Buffer.wellFormed b = true -> Buffer.from (Buffer.toString b) = b.
Proof.
  intros H. unfold Buffer.from.
  now apply (toString_wellFormed_upto (String.length b)).
Qed.

(** ** The change notifier *)

Lemma sends_app (a b : list Effect) : sends (a ++ b)%list = (sends a ++ sends b)%list.
Proof. unfold sends. apply flat_map_app. Qed.

(** The [forEach] sends the token to the open connections, in the order of
    the set. *)
Lemma sends_forEach (conns : list Socket) :
  sends (flat_map sendReload conns)
  = map (fun ws => (sid ws, "reload")) (filter isOpen conns).
Proof.
  induction conns as [|ws conns IH]; [reflexivity|].
  cbn [flat_map filter]. rewrite sends_app, IH.
  unfold sendReload, isOpen. destruct (readyState ws =? 1)%Z; reflexivity.
Qed.

(** C3. [broadcastReload] leaves the connection set as it is; what it adds
    to the trace sends the token reload to exactly the connections of the
    set whose readyState is open, once each and in the order of the set,
    and sends nothing else; on an empty set it does nothing at all.  It is
    a total function: no call fails. *)
Theorem broadcastReload_sends_to_open (n : Notifier) :
  wsConnections (broadcastReload n) = wsConnections n
  /\ (exists added,
        trace (broadcastReload n) = (trace n ++ added)%list
        /\ sends added
           = map (fun ws => (sid ws, "reload")) (filter isOpen (wsConnections n)))
  /\ (wsConnections n = [] -> broadcastReload n = n).
Proof.
  assert (D : wsConnections n = [] /\ broadcastReload n = n
              \/ wsConnections n <> []
                 /\ broadcastReload n
                    = {| wsConnections := wsConnections n;
                         trace := (trace n ++ flat_map sendReload (wsConnections n) ++
                           [Log ("[Live Reload] Reload signal sent to "
                                 ++ JS.toString (JS.Num (Z.of_nat (List.length (wsConnections n))))
                                 ++ " client(s)")])%list |}).
  { unfold broadcastReload. destruct (wsConnections n); [left | right]; cbn.
    - now split.
    - split; [discriminate | reflexivity]. }
  destruct D as [[E R] | [E R]]; rewrite R.
  - split; [reflexivity|]. split; [|reflexivity].
    exists []. rewrite E. split; [now rewrite app_nil_r | reflexivity].
  - cbn [wsConnections trace]. split; [reflexivity|]. split; [|contradiction].
    eexists. split; [reflexivity|].
    rewrite sends_app, sends_forEach. cbn [sends flat_map].
    now rewrite app_nil_r.
Qed.

(** ** The dispatcher *)

(** C9. Two requests for the same URL get the same response whatever their
    methods are: the method of a request is read for the console line and
    for nothing else. *)
Theorem handle_ignores_method
  (mimeLookup : string -> option string) (env : Env)
  (readFile : string -> option string) (wsServer : option JS.value)
  (now1 now2 m1 m2 u : string) :
  snd (handle mimeLookup env readFile wsServer now1 {| method := m1; url := u |})
  = snd (handle mimeLookup env readFile wsServer now2 {| method := m2; url := u |})
  /\ fst (handle mimeLookup env readFile wsServer now1 {| method := m1; url := u |})
     = "[" ++ now1 ++ "] " ++ m1 ++ " " ++ u.
Proof. split; reflexivity. Qed.

(** ** The MIME classifier *)

(** Every entry of the fixed table is a non-empty text, and its key is in
    lower case. *)
Lemma customMimeTypes_truthy (ext v : string) :
  property customMimeTypes ext = Some v -> JS.truthy v = true.
Proof.
  unfold customMimeTypes. cbn [property].
  repeat (destruct (String.eqb _ ext); [intros [= <-]; reflexivity|]).
  intros H; discriminate H.
Qed.

Lemma customMimeTypes_lower (ext v : string) :
  property customMimeTypes ext = Some v -> JS.toLowerCase ext = ext.
Proof.
  unfold customMimeTypes. cbn [property].
  repeat match goal with
         | |- context [String.eqb ?k ext] =>
             destruct (String.eqb_spec k ext) as [<- | _]; [reflexivity|]
         end.
  intros H; discriminate H.
Qed.

(** C7. A path whose extension is a key of the fixed table gets the entry
    of the table, whatever the library would say, also when the extension
    is written with capitals; a path whose extension (in lower case, as
    the table is asked) is not in the table and which the library does not
    know gets application/octet-stream.  [getMimeType] is a total
    function. *)
Theorem getMimeType_table_then_fallback
  (mimeLookup : string -> option string) (p : string) :
  (forall v, property customMimeTypes (Path.extname p) = Some v ->
             getMimeType mimeLookup p = v)
  /\ (forall v, property customMimeTypes (JS.toLowerCase (Path.extname p)) = Some v ->
                getMimeType mimeLookup p = v)
  /\ (property customMimeTypes (JS.toLowerCase (Path.extname p)) = None ->
      mimeLookup p = None ->
      getMimeType mimeLookup p = "application/octet-stream").
Proof.
  assert (L : forall v, property customMimeTypes (JS.toLowerCase (Path.extname p)) = Some v ->
                        getMimeType mimeLookup p = v).
  { intros v H. unfold getMimeType. rewrite H. cbn [JS.orElse].
    now rewrite (customMimeTypes_truthy _ _ H). }
  repeat split.
  - intros v H. apply L. now rewrite (customMimeTypes_lower _ _ H).
  - exact L.
  - intros H1 H2. unfold getMimeType. now rewrite H1, H2.
Qed.

(** ** The file watcher *)

Section Debounce.

Variable relative : string -> string.

Lemma advance_early (t : Z) (w : Watcher) :
  (forall tm, reloadTimer w = Some tm -> (t < due tm)%Z) ->
  advance relative t w = w.
Proof.
  intros H. unfold advance. destruct (reloadTimer w) as [tm|]; [|reflexivity].
  specialize (H tm eq_refl).
  destruct (Z.leb_spec (due tm) t); [lia | reflexivity].
Qed.

(** While the events of a burst arrive, the timer is set again by each of
    them and never runs. *)
Lemma run_burst (rest : list WatchEvent) :
  forall (e : WatchEvent) (w : Watcher),
    chained (at_ e) rest = true ->
    (forall tm, reloadTimer w = Some tm -> (at_ e < due tm)%Z) ->
    run relative (e :: rest) w
    = {| reloadTimer :=
           Some {| due := at_ (lastEvent e rest) + debounce;
                   eventType := label (kind (lastEvent e rest));
                   filePath := file (lastEvent e rest) |};
         notifier := notifier w;
         broadcasts := broadcasts w |}.
Proof.
  induction rest as [|e' rest IH]; intros e w Hc Hw.
  - cbn [run lastEvent]. unfold onEvent. now rewrite (advance_early (at_ e) w Hw).
  - cbn [chained] in Hc. apply andb_prop in Hc as [Hc Hrest].
    apply andb_prop in Hc as [Hlo Hhi].
    apply Z.leb_le in Hlo. apply Z.ltb_lt in Hhi.
    change (run relative (e :: e' :: rest) w)
      with (run relative (e' :: rest) (onEvent relative e w)).
    rewrite IH; [| exact Hrest |].
    + unfold onEvent. rewrite (advance_early (at_ e) w Hw). reflexivity.
    + unfold onEvent. rewrite (advance_early (at_ e) w Hw).
      cbn [scheduleReload reloadTimer]. intros tm [= <-]. cbn [due]. lia.
Qed.

(** C2. A burst of one or more watcher events, each arriving less than the
    100 ms of the debounce delay after the one before it, leads to exactly
    one call of [broadcastReload], 100 ms after the last event of the
    burst: nothing is broadcast while the burst lasts, nothing before that
    time, and from that time on the one call has been made, on the
    notifier as the burst found it.  The burst may start on any watcher
    whose pending timer, if it has one, is not due yet. *)
Theorem burst_broadcasts_once
  (e : WatchEvent) (rest : list WatchEvent) (w : Watcher) (T : Z) :
  chained (at_ e) rest = true ->
  (forall tm, reloadTimer w = Some tm -> (at_ e < due tm)%Z) ->
  let final := lastEvent e rest in
  let w' := run relative (e :: rest) w in
  broadcasts w' = broadcasts w
  /\ ((T < at_ final + 100)%Z ->
      broadcasts (advance relative T w') = broadcasts w)
  /\ ((at_ final + 100 <= T)%Z ->
      broadcasts (advance relative T w') = (broadcasts w ++ [(at_ final + 100)%Z])%list
      /\ reloadTimer (advance relative T w') = None
      /\ notifier (advance relative T w')
         = broadcastReload
             {| wsConnections := wsConnections (notifier w);
                trace := (trace (notifier w) ++
                  [Log ("[File Watcher] " ++ label (kind final) ++ ": "
                        ++ relative (file final))])%list |}).
Proof.
  intros Hc Hw final w'. subst w'. rewrite (run_burst rest e w Hc Hw).
  fold final. unfold advance, debounce. cbn [reloadTimer due broadcasts].
  split; [reflexivity|]. split; intros HT.
  - destruct (Z.leb_spec (at_ final + 100) T); [lia | reflexivity].
  - destruct (Z.leb_spec (at_ final + 100) T); [| lia].
    unfold fire. cbn. repeat split.
Qed.

End Debounce.

Lemma burst_broadcasts_once_witness :
  let w := {| reloadTimer := None;
              notifier := {| wsConnections := [{| sid := 7; readyState := 1 |}];
                             trace := [] |};
              broadcasts := [] |} in
  let burst := [ {| at_ := 40; kind := Change; file := "src/a.css" |};
                 {| at_ := 90; kind := Unlink; file := "src/b.js" |} ] in
  let first := {| at_ := 0; kind := Add; file := "src/index.html" |} in
  broadcasts (advance (fun p => p) 500 (run (fun p => p) (first :: burst) w))
  = [190%Z].
Proof.
  intros w burst first.
  apply (burst_broadcasts_once (fun p => p) first burst w 500).
  - reflexivity.
  - intros tm H. discriminate H.
  - vm_compute. discriminate.
Defined.

(** ** The content responder: files that cannot be read *)

(** C6, as the specification states it, fails: the body of the 404
    response is not one fixed page.  Two requests for files that cannot be
    read get bodies that differ, since each body names the path asked
    for. *)
Lemma notFound_body_varies :
  ~ exists page : string,
      forall (mimeLookup : string -> option string) (env : Env)
             (readFile : string -> option string) (wsServer : option JS.value)
             (now : string) (req : Request),
        readFile (fullPath env (resolvePath (url req))) = None ->
        body (snd (handle mimeLookup env readFile wsServer now req)) = page.
Proof.
  intros [page H].
  pose proof (H (fun _ => None) sampleEnv (fun _ => None) None "12:00:00"
                {| method := "GET"; url := "/a.html" |} eq_refl) as Ha.
  pose proof (H (fun _ => None) sampleEnv (fun _ => None) None "12:00:00"
                {| method := "GET"; url := "/b.html" |} eq_refl) as Hb.
  assert (D : String.eqb (notFoundPage "a.html") (notFoundPage "b.html") = false)
    by (vm_compute; reflexivity).
  apply String.eqb_neq in D. apply D.
  transitivity page; [exact Ha | symmetry; exact Hb].
Qed.

(** C6, amended.  A request whose resolved path cannot be read is answered
    with status 404, the single header Content-Type with the value
    text/html; charset=utf-8, and the error page: a fixed text around the
    resolved path, which is put in as it is.  The listener is a total
    function, so the failed read raises nothing. *)
Theorem unreadable_file_gets_404
  (mimeLookup : string -> option string) (env : Env)
  (readFile : string -> option string) (wsServer : option JS.value)
  (now : string) (req : Request) :
  readFile (fullPath env (resolvePath (url req))) = None ->
  let r := snd (handle mimeLookup env readFile wsServer now req) in
  status r = 404%Z
  /\ headers r = [("Content-Type", JS.Str "text/html; charset=utf-8")]
  /\ body r = notFoundHead ++ resolvePath (url req) ++ notFoundTail.
Proof.
  intros H. cbn [handle snd]. unfold serveFile. rewrite H. repeat split.
Qed.

Lemma unreadable_file_gets_404_witness :
  let r := snd (handle (fun _ => None) sampleEnv (fun _ => None) None "12:00:00"
                       {| method := "GET"; url := "/missing.css?v=2" |}) in
  status r = 404%Z
  /\ headers r = [("Content-Type", JS.Str "text/html; charset=utf-8")]
  /\ body r = notFoundHead ++ "missing.css" ++ notFoundTail.
Proof.
  apply (unreadable_file_gets_404 (fun _ => None) sampleEnv (fun _ => None) None
           "12:00:00" {| method := "GET"; url := "/missing.css?v=2" |}).
  reflexivity.
Defined.

(** ** The port of the push channel *)

(** Without PORT the port is the number 3000 and the push channel gets
    3001; with PORT the port is a text and the push channel gets that text
    followed by the digit 1. *)
Lemma wsPort_default (env : Env) :
  PORT env = None -> wsPort (config env) = JS.Num 3001.
Proof.
  intros H. unfold wsPort, config, JS.orElse. cbn [port].
  rewrite H. reflexivity.
Qed.

Lemma wsPort_from_text (env : Env) (s : string) :
  PORT env = Some s -> JS.truthy s = true ->
  wsPort (config env) = JS.Str (s ++ "1").
Proof.
  intros H T. unfold wsPort, config, JS.orElse. cbn [port].
  rewrite H, T. reflexivity.
Qed.

(** C5, at PORT=3001 (the setting the server's own hint for a busy port
    proposes): the HTTP server is given the text 3001, the push channel
    and the injected script are given the text 30011, not 3002. *)
Theorem wsPort_of_PORT_3001 :
  let env := {| PORT := Some "3001"; HOST := None; dirname := "/srv/site" |} in
  port (config env) = JS.Str "3001"
  /\ createWebSocketServer env true = Some (JS.Str "30011")
  /\ JS.includes "new WebSocket('ws://localhost:30011');" (liveReloadScript (config env)) = true
  /\ JS.includes "3002" (liveReloadScript (config env)) = false.
Proof. vm_compute. repeat split. Qed.

(** ** The static file resolver *)

(** C1, at the request target [http://../..]: the resolved path is two
    dots, and the file read is the directory above the static root. *)
Theorem traversal_reaches_parent :
  resolvePath "http://../.." = ".."
  /\ staticDir (config sampleEnv) = "/srv/site/src"
  /\ fullPath sampleEnv (resolvePath "http://../..") = "/srv/site"
  /\ confined (staticDir (config sampleEnv))
              (fullPath sampleEnv (resolvePath "http://../..")) = false.
Proof. vm_compute. repeat split. Qed.

(** C8, at the request target [http://../../]: it ends with a slash, and
    the resolved path is empty, so the file read is the static root itself
    and not its index document. *)
Theorem directory_request_without_index :
  JS.endsWithChar Path.slash (JS.splitHead "?" "http://../../") = true
  /\ resolvePath "http://../../" = EmptyString
  /\ fullPath sampleEnv (resolvePath "http://../../") = "/srv/site/src"
  /\ resolvePath "/" = "index.html".
Proof. vm_compute. repeat split. Qed.

(** ** Decoding around ASCII text *)

Lemma inRange_ascii (lo hi : nat) (c : ascii) :
  Buffer.isAscii c = true -> 128 <= lo -> Buffer.inRange lo hi c = false.
Proof.
  unfold Buffer.isAscii, Buffer.inRange. intros H L.
  apply Nat.ltb_lt in H. apply andb_false_iff. left. apply Nat.leb_gt. lia.
Qed.

Lemma cont_ascii (c : ascii) : Buffer.isAscii c = true -> Buffer.cont c = false.
Proof. intros H. apply inRange_ascii; [exact H | lia]. Qed.

Lemma lower_high (n : nat) : 128 <= Buffer.lower n.
Proof.
  unfold Buffer.lower.
  destruct (n =? 224)%nat; [lia|]. destruct (n =? 240)%nat; lia.
Qed.

Lemma second_ascii (n : nat) (c : ascii) :
  Buffer.isAscii c = true -> Buffer.inRange (Buffer.lower n) (Buffer.upper n) c = false.
Proof. intros H. apply inRange_ascii; [exact H | apply lower_high]. Qed.

Lemma toString_step (b : string) :
  Buffer.toString b = Buffer.decodeStep Buffer.toString b.
Proof. destruct b; reflexivity. Qed.

(** What the decoder does with a sequence that the end of the bytes cuts
    short, it also does when ASCII text follows. *)
Lemma toString_app_upto (n : nat) :
  forall a s, String.length a <= n -> Buffer.asciiHead s = true ->
              Buffer.toString (a ++ s) = Buffer.toString a ++ Buffer.toString s.
Proof.
  induction n as [|n IH]; intros a s Hn Hs.
  - destruct a; [reflexivity | simpl in Hn; lia].
  - destruct a as [|c r]; [reflexivity|].
    assert (K : forall x, String.length x <= String.length r ->
                          Buffer.toString x ++ Buffer.toString s = Buffer.toString (x ++ s)).
    { intros x Hx. symmetry. apply IH; [cbn [String.length] in Hn; lia | exact Hs]. }
    clear IH Hn.
    rewrite (toString_step (String c r ++ s)), (toString_step (String c r)).
    destruct r as [|c1 [|c2 [|c3 r3]]];
      cbn [String.length] in K; cbn [append Buffer.decodeStep];
      repeat match goal with
             | |- context [if ?b then _ else _] => destruct b
             end;
      try (destruct s as [|d s']; cbn [Buffer.asciiHead] in Hs;
           rewrite ?(cont_ascii _ Hs), ?(second_ascii _ _ Hs));
      rewrite ?append_assoc; cbn [append];
      rewrite ?K by (cbn [String.length]; lia);
      cbn [append]; rewrite ?append_nil_r; try reflexivity.
Qed.

(** Decoding goes through a boundary at which ASCII text starts. *)
Lemma toString_app (a s : string) :
  Buffer.asciiHead s = true ->
  Buffer.toString (a ++ s) = Buffer.toString a ++ Buffer.toString s.
Proof. apply (toString_app_upto (String.length a)). lia. Qed.

(** ASCII text decodes to itself. *)
Lemma toString_ascii (s : string) :
  Buffer.allAscii s = true -> Buffer.toString s = s.
Proof.
  induction s as [|c s IH]; [reflexivity|].
  cbn [Buffer.allAscii]. intros H. apply andb_prop in H as [Hc Hs].
  cbn [Buffer.toString]. unfold Buffer.isAscii in Hc. rewrite Hc.
  now rewrite IH.
Qed.

(** What the decoder gives for bytes that start with a byte of 128 or
    more starts with such a byte too. *)
Lemma toString_high_head (c : ascii) (r : string) :
  Buffer.isAscii c = false ->
  exists h t, Buffer.toString (String c r) = String h t /\ Buffer.isAscii h = false.
Proof.
  intros Hc. rewrite toString_step. unfold Buffer.isAscii in Hc.
  cbn [Buffer.decodeStep]. rewrite Hc.
  repeat match goal with
         | |- context [if ?b then _ else _] => destruct b
         | |- context [match ?x with EmptyString => _ | String _ _ => _ end] =>
             destruct x
         end;
    first [ exists c; eexists; split; [reflexivity | exact Hc]
          | eexists; eexists; split; [reflexivity | reflexivity] ].
Qed.

Lemma includes_cons (p : string) (c : ascii) (r : string) :
  JS.includes p (String c r) = JS.startsWith p (String c r) || JS.includes p r.
Proof.
  unfold JS.includes. cbn [JS.indexOf].
  destruct (JS.startsWith p (String c r)); [reflexivity|].
  now destruct (JS.indexOf p r).
Qed.

Lemma isChar_ascii_high (a h : ascii) :
  Buffer.isAscii a = true -> Buffer.isAscii h = false -> JS.isChar a h = false.
Proof.
  intros Ha Hh. unfold JS.isChar. apply Ascii.eqb_neq. intros ->. congruence.
Qed.

(** ASCII text starts the decoded bytes exactly when it starts the
    bytes. *)
Lemma startsWith_toString (p : string) :
  forall x, Buffer.allAscii p = true ->
            JS.startsWith p (Buffer.toString x) = JS.startsWith p x.
Proof.
  induction p as [|a p IH]; intros x Hp; [reflexivity|].
  cbn [Buffer.allAscii] in Hp. apply andb_prop in Hp as [Ha Hp].
  destruct x as [|c r]; [reflexivity|].
  destruct (Buffer.isAscii c) eqn:Hc.
  - cbn [Buffer.toString]. unfold Buffer.isAscii in Hc. rewrite Hc.
    cbn [JS.startsWith]. now rewrite IH.
  - destruct (toString_high_head c r Hc) as (h & t & -> & Hh).
    cbn [JS.startsWith].
    now rewrite (isChar_ascii_high a h Ha Hh), (isChar_ascii_high a c Ha Hc).
Qed.

(** A byte of 128 or more starts no occurrence of an ASCII text. *)
Lemma includes_skip_high (a : ascii) (p : string) (c : ascii) (r : string) :
  Buffer.isAscii a = true -> Buffer.isAscii c = false ->
  JS.includes (String a p) (String c r) = JS.includes (String a p) r.
Proof.
  intros Ha Hc. rewrite includes_cons. cbn [JS.startsWith].
  now rewrite (isChar_ascii_high a c Ha Hc).
Qed.

Lemma range_high (lo hi : nat) (c : ascii) :
  Buffer.inRange lo hi c = true -> 128 <= lo -> Buffer.isAscii c = false.
Proof.
  unfold Buffer.inRange, Buffer.isAscii. intros H L.
  apply andb_prop in H as [H _]. apply Nat.leb_le in H.
  apply Nat.ltb_ge. lia.
Qed.

Lemma cont_high (c : ascii) : Buffer.cont c = true -> Buffer.isAscii c = false.
Proof. intros H. apply (range_high _ _ _ H). lia. Qed.

Lemma second_high (n : nat) (c : ascii) :
  Buffer.inRange (Buffer.lower n) (Buffer.upper n) c = true -> Buffer.isAscii c = false.
Proof. intros H. apply (range_high _ _ _ H). apply lower_high. Qed.

Lemma includes_replacement (a : ascii) (p t : string) :
  Buffer.isAscii a = true ->
  JS.includes (String a p) (Buffer.replacement ++ t) = JS.includes (String a p) t.
Proof.
  intros Ha. unfold Buffer.replacement, Buffer.ofBytes.
  cbn [map string_of_list_ascii append].
  now rewrite !(includes_skip_high a) by (exact Ha || reflexivity).
Qed.

Lemma includes_replacement_only (a : ascii) (p : string) :
  Buffer.isAscii a = true ->
  JS.includes (String a p) Buffer.replacement = false.
Proof.
  intros Ha. rewrite <- (append_nil_r Buffer.replacement).
  now rewrite includes_replacement.
Qed.

Ltac high_byte :=
  first [ assumption
        | apply cont_high; assumption
        | eapply second_high; eassumption ].

(** An ASCII text occurs in the decoded bytes exactly when it occurs in
    the bytes. *)
Lemma includes_toString_upto (a : ascii) (p : string) (n : nat) :
  Buffer.isAscii a = true -> Buffer.allAscii p = true ->
  forall x, String.length x <= n ->
            JS.includes (String a p) (Buffer.toString x) = JS.includes (String a p) x.
Proof.
  intros Ha Hp. induction n as [|n IH]; intros x Hn.
  - destruct x; [reflexivity | simpl in Hn; lia].
  - destruct x as [|c r]; [reflexivity|].
    destruct (Buffer.isAscii c) eqn:Hc.
    + rewrite includes_cons, <- (IH r) by (cbn [String.length] in Hn; lia).
      rewrite <- (startsWith_toString (String a p) (String c r))
        by (cbn [Buffer.allAscii]; now rewrite Ha, Hp).
      cbn [Buffer.toString]. unfold Buffer.isAscii in Hc. rewrite Hc.
      now rewrite includes_cons.
    + assert (K : forall y, String.length y <= String.length r ->
                            JS.includes (String a p) (Buffer.toString y)
                            = JS.includes (String a p) y).
      { intros y Hy. apply IH. cbn [String.length] in Hn. lia. }
      clear IH Hn. rewrite toString_step. cbn [Buffer.decodeStep].
      pose proof Hc as Hc'. unfold Buffer.isAscii in Hc'. rewrite Hc'.
      destruct r as [|c1 [|c2 [|c3 r3]]]; cbn [String.length] in K;
        repeat match goal with
               | |- context [if ?b then _ else _] => destruct b eqn:?
               end;
        rewrite ?(includes_replacement a p _ Ha);
        rewrite ?(includes_replacement_only a p Ha);
        repeat (rewrite (includes_skip_high a p) by (exact Ha || high_byte));
        rewrite ?K by (cbn [String.length]; lia);
        repeat (rewrite (includes_skip_high a p) by (exact Ha || high_byte));
        try reflexivity.
Qed.

Lemma includes_toString (x : string) :
  JS.includes "</body>" (Buffer.toString x) = JS.includes "</body>" x.
Proof.
  apply (includes_toString_upto "<" "/body>" (String.length x)); reflexivity.
Qed.

(** Decoding keeps the first closing body tag where it is: what stands
    before it and what stands after it are decoded apart. *)
Lemma toString_around_tag (a b : string) :
  Buffer.toString (a ++ "</body>" ++ b)
  = Buffer.toString a ++ "</body>" ++ Buffer.toString b.
Proof.
  rewrite toString_app by reflexivity. reflexivity.
Qed.

Lemma first_tag_decoded (a : string) :
  JS.includes "</body>" (a ++ "</body") = false ->
  JS.includes "</body>" (Buffer.toString a ++ "</body") = false.
Proof.
  intros H.
  assert (E : Buffer.toString (a ++ "</body") = Buffer.toString a ++ "</body")
    by (rewrite toString_app by reflexivity; reflexivity).
  rewrite <- E, includes_toString. exact H.
Qed.

(** ** The content responder: files that are read *)

Lemma liveReloadScript_plain (env : Env) :
  plain (JS.toString (wsPort (config env))) = true ->
  plain (liveReloadScript (config env) ++ "</body>") = true.
Proof.
  intros H. unfold liveReloadScript.
  repeat apply plain_app; try exact H; vm_compute; reflexivity.
Qed.

Section Responder.

Variable mimeLookup : string -> option string.
Variable env : Env.
Variable readFile : string -> option string.
Variable wsServer : option JS.value.
Variable filePath : string.
Variable data : string.
Hypothesis readable : readFile (fullPath env filePath) = Some data.

Let r := serveFile mimeLookup env readFile wsServer filePath.
Let script := liveReloadScript (config env).
Let injecting :=
  JS.includes "text/html" (getMimeType mimeLookup filePath) && isActive wsServer.

Lemma served_as_is :
  injecting = false ->
  status r = 200%Z /\ body r = data /\ header "Content-Length" (headers r) = None.
Proof.
  intros H. subst r. unfold serveFile. rewrite readable.
  fold injecting. rewrite H. repeat split.
Qed.

Lemma served_rewritten :
  injecting = true ->
  status r = 200%Z
  /\ body r = JS.replace "</body>" (script ++ "</body>") (Buffer.toString data)
  /\ header "Content-Length" (headers r)
     = Some (JS.Num (Z.of_nat (String.length (body r)))).
Proof.
  intros H. subst r. unfold serveFile. rewrite readable.
  fold injecting. rewrite H. repeat split.
Qed.

(** The script goes before the first closing body tag of the file; the
    bytes on both sides are decoded and encoded again. *)
Lemma body_with_script (a b : string) :
  injecting = true ->
  plain (JS.toString (wsPort (config env))) = true ->
  data = a ++ "</body>" ++ b ->
  JS.includes "</body>" (a ++ "</body") = false ->
  body r = Buffer.toString a ++ script ++ "</body>" ++ Buffer.toString b.
Proof.
  intros Hi Hp Hd Hfirst.
  destruct (served_rewritten Hi) as (_ & -> & _).
  rewrite Hd, toString_around_tag.
  rewrite replace_first;
    [ | now apply first_tag_decoded | now apply liveReloadScript_plain ].
  now rewrite append_assoc.
Qed.

Lemma body_with_script_wellFormed (a b : string) :
  injecting = true ->
  plain (JS.toString (wsPort (config env))) = true ->
  data = a ++ "</body>" ++ b ->
  JS.includes "</body>" (a ++ "</body") = false ->
  Buffer.wellFormed data = true ->
  body r = a ++ script ++ "</body>" ++ b.
Proof.
  intros Hi Hp Hd Hfirst Hw.
  destruct (served_rewritten Hi) as (_ & -> & _).
  pose proof (toString_wellFormed data Hw) as E. unfold Buffer.from in E.
  rewrite E, Hd.
  rewrite replace_first; [ | exact Hfirst | now apply liveReloadScript_plain ].
  now rewrite append_assoc.
Qed.

Lemma body_without_tag :
  injecting = true ->
  JS.includes "</body>" data = false ->
  body r = Buffer.toString data.
Proof.
  intros Hi Hn. destruct (served_rewritten Hi) as (_ & -> & _).
  apply replace_absent. now rewrite includes_toString.
Qed.

End Responder.

(** C4, as the specification states it, fails on a file that is not
    well-formed UTF-8.  The file holds the byte 255 and the closing body
    tag; a script is put before the tag, but the byte before it comes out
    as the three bytes of U+FFFD, so the body is not the content of the
    file with the script put in. *)
Lemma ill_formed_html_is_rewritten :
  let data := Buffer.ofBytes [255] ++ "</body>" in
  let r := serveFile (fun _ => None) sampleEnv
             (oneFile "/srv/site/src/index.html" data)
             (createWebSocketServer sampleEnv true) "index.html" in
  ~ exists a b,
      data = a ++ "</body>" ++ b
      /\ body r = a ++ liveReloadScript (config sampleEnv) ++ "</body>" ++ b.
Proof.
  intros data r [a [b [Hd Hb]]].
  destruct a as [|c a].
  - vm_compute in Hd. discriminate Hd.
  - assert (Hc : c = ascii_of_nat 255) by (vm_compute in Hd; now injection Hd).
    subst c.
    apply (f_equal (fun s => match s with
                             | String x _ => nat_of_ascii x
                             | EmptyString => 0
                             end)) in Hb.
    vm_compute in Hb. discriminate Hb.
Qed.

(** C4, amended.  A file that is read is answered with status 200.  When
    its MIME type holds text/html and the push channel is active, the body
    is the content of the file, decoded as UTF-8 and encoded again, with
    the script put immediately before the first closing body tag: the
    bytes before and after the tag are kept when the file is well-formed
    UTF-8, and have their ill-formed sequences replaced by U+FFFD
    otherwise; the header Content-Length is the number of bytes of that
    body.  (The text of PORT is taken to hold no dollar sign, as every
    port Node accepts does.)  When the type is not HTML or the push
    channel is not active, the body is the content of the file and no
    Content-Length is set. *)
Theorem html_gets_script_before_body_tag
  (mimeLookup : string -> option string) (env : Env)
  (readFile : string -> option string) (wsServer : option JS.value)
  (filePath data : string) :
  readFile (fullPath env filePath) = Some data ->
  let r := serveFile mimeLookup env readFile wsServer filePath in
  let script := liveReloadScript (config env) in
  let injecting :=
    JS.includes "text/html" (getMimeType mimeLookup filePath) && isActive wsServer in
  status r = 200%Z
  /\ (injecting = true ->
      header "Content-Length" (headers r)
      = Some (JS.Num (Z.of_nat (String.length (body r))))
      /\ forall a b,
           data = a ++ "</body>" ++ b ->
           JS.includes "</body>" (a ++ "</body") = false ->
           plain (JS.toString (wsPort (config env))) = true ->
           body r = Buffer.toString a ++ script ++ "</body>" ++ Buffer.toString b
           /\ (Buffer.wellFormed data = true ->
               body r = a ++ script ++ "</body>" ++ b))
  /\ (injecting = false ->
      body r = data /\ header "Content-Length" (headers r) = None).
Proof.
  intros Hr r script injecting. split; [|split].
  - destruct injecting eqn:E.
    + now destruct (served_rewritten mimeLookup env readFile wsServer filePath data Hr E).
    + now destruct (served_as_is mimeLookup env readFile wsServer filePath data Hr E).
  - intros Hi. split.
    + now destruct (served_rewritten mimeLookup env readFile wsServer filePath data Hr Hi)
        as (_ & _ & H).
    + intros a b Hd Hfirst Hp. split.
      * exact (body_with_script mimeLookup env readFile wsServer filePath data Hr
                 a b Hi Hp Hd Hfirst).
      * intros Hw.
        exact (body_with_script_wellFormed mimeLookup env readFile wsServer filePath
                 data Hr a b Hi Hp Hd Hfirst Hw).
  - intros Hi.
    now destruct (served_as_is mimeLookup env readFile wsServer filePath data Hr Hi)
      as (_ & H1 & H2).
Qed.

Lemma html_gets_script_before_body_tag_witness :
  let data := "<html><body><p>hi</p></body></html>" in
  let r := serveFile (fun _ => None) sampleEnv
             (oneFile "/srv/site/src/index.html" data)
             (createWebSocketServer sampleEnv true) "index.html" in
  status r = 200%Z
  /\ body r = "<html><body><p>hi</p>" ++ liveReloadScript (config sampleEnv)
              ++ "</body>" ++ "</html>".
Proof.
  intros data r.
  pose proof (html_gets_script_before_body_tag (fun _ => None) sampleEnv
                (oneFile "/srv/site/src/index.html" data)
                (createWebSocketServer sampleEnv true) "index.html" data eq_refl)
    as (Hs & Hi & _).
  split; [exact Hs|].
  destruct (Hi eq_refl) as (_ & Hb).
  destruct (Hb "<html><body><p>hi</p>" "</html>" eq_refl eq_refl eq_refl) as (_ & Hw).
  exact (Hw eq_refl).
Defined.

(** C10, as the specification states it, fails: for an HTML file without a
    closing body tag a Content-Length header is set all the same when the
    push channel is active. *)
Lemma content_length_set_without_body_tag :
  let data := "<p>hi</p>" in
  let r := serveFile (fun _ => None) sampleEnv
             (oneFile "/srv/site/src/index.html" data)
             (createWebSocketServer sampleEnv true) "index.html" in
  ~ (JS.includes "</body>" data = false ->
     body r = data /\ header "Content-Length" (headers r) = None).
Proof.
  intros data r H. destruct (H eq_refl) as [_ H2].
  vm_compute in H2. discriminate H2.
Qed.

(** C10, amended.  For an HTML file that is read and holds no closing body
    tag: when the push channel is not active the body is the file, byte
    for byte, and no Content-Length is set; when it is active no script is
    put in, the body is the file decoded as UTF-8 and encoded again (the
    file itself when it is well-formed UTF-8), still without a closing
    body tag, and Content-Length is set, to the number of bytes of the
    body.  For a file with more than one closing body tag the script is
    put before the first one only (PORT holding no dollar sign). *)
Theorem html_without_or_with_several_body_tags
  (mimeLookup : string -> option string) (env : Env)
  (readFile : string -> option string) (wsServer : option JS.value)
  (filePath data : string) :
  readFile (fullPath env filePath) = Some data ->
  JS.includes "text/html" (getMimeType mimeLookup filePath) = true ->
  let r := serveFile mimeLookup env readFile wsServer filePath in
  let script := liveReloadScript (config env) in
  (JS.includes "</body>" data = false ->
     (isActive wsServer = false ->
        body r = data /\ header "Content-Length" (headers r) = None)
     /\ (isActive wsServer = true ->
           body r = Buffer.toString data
           /\ (Buffer.wellFormed data = true -> body r = data)
           /\ JS.includes "</body>" (body r) = false
           /\ header "Content-Length" (headers r)
              = Some (JS.Num (Z.of_nat (String.length (body r))))))
  /\ (isActive wsServer = true ->
      plain (JS.toString (wsPort (config env))) = true ->
      forall a b1 b2,
        data = a ++ "</body>" ++ b1 ++ "</body>" ++ b2 ->
        JS.includes "</body>" (a ++ "</body") = false ->
        body r = Buffer.toString a ++ script ++ "</body>"
                 ++ Buffer.toString b1 ++ "</body>" ++ Buffer.toString b2).
Proof.
  intros Hr Hm r script. split.
  - intros Hn. split; intros Ha.
    + assert (Hi : JS.includes "text/html" (getMimeType mimeLookup filePath)
                   && isActive wsServer = false) by now rewrite Hm, Ha.
      now destruct (served_as_is mimeLookup env readFile wsServer filePath data Hr Hi)
        as (_ & H1 & H2).
    + assert (Hi : JS.includes "text/html" (getMimeType mimeLookup filePath)
                   && isActive wsServer = true) by now rewrite Hm, Ha.
      pose proof (body_without_tag mimeLookup env readFile wsServer filePath data
                    Hr Hi Hn) as Hb.
      fold r in Hb. repeat split.
      * exact Hb.
      * intros Hw. rewrite Hb. exact (toString_wellFormed data Hw).
      * rewrite Hb, includes_toString. exact Hn.
      * now destruct (served_rewritten mimeLookup env readFile wsServer filePath data
                        Hr Hi) as (_ & _ & H).
  - intros Ha Hp a b1 b2 Hd Hfirst.
    assert (Hi : JS.includes "text/html" (getMimeType mimeLookup filePath)
                 && isActive wsServer = true) by now rewrite Hm, Ha.
    rewrite <- toString_around_tag.
    exact (body_with_script mimeLookup env readFile wsServer filePath data Hr
             a (b1 ++ "</body>" ++ b2) Hi Hp Hd Hfirst).
Qed.

Lemma html_without_or_with_several_body_tags_witness :
  let data := "<body>a</body><body>b</body>" in
  let r := serveFile (fun _ => None) sampleEnv
             (oneFile "/srv/site/src/index.html" data)
             (createWebSocketServer sampleEnv true) "index.html" in
  body r = "<body>a" ++ liveReloadScript (config sampleEnv) ++ "</body>"
           ++ "<body>b" ++ "</body>" ++ EmptyString.
Proof.
  intros data r.
  pose proof (html_without_or_with_several_body_tags (fun _ => None) sampleEnv
                (oneFile "/srv/site/src/index.html" data)
                (createWebSocketServer sampleEnv true) "index.html" data
                eq_refl eq_refl) as (_ & H).
  exact (H eq_refl eq_refl "<body>a" "<body>b" EmptyString eq_refl eq_refl).
Defined.

(** * Further properties of the server *)

(** ** The change notifier: connections come and go *)

Lemma skipn_app_length {A : Type} (a b : list A) :
  skipn (List.length a) (a ++ b)%list = b.
Proof. induction a as [|x a IH]; [reflexivity | exact IH]. Qed.

Lemma broadcastReload_unfold (n : Notifier) :
  exists tail,
    trace (broadcastReload n) = (trace n ++ tail)%list
    /\ sends tail = map (fun ws => (sid ws, "reload")) (filter isOpen (wsConnections n)).
Proof.
  unfold broadcastReload. destruct (wsConnections n) as [|ws conns] eqn:E.
  - exists []. cbn. now rewrite app_nil_r.
  - cbn [List.length Nat.ltb Nat.leb trace]. eexists. split; [reflexivity|].
    rewrite sends_app, sends_forEach. cbn [sends flat_map]. now rewrite app_nil_r.
Qed.

(** One broadcast sends the token to the open connections of the set. *)
Lemma broadcastSends_open (n : Notifier) :
  broadcastSends n
  = map (fun ws => (sid ws, "reload")) (filter isOpen (wsConnections n)).
Proof.
  unfold broadcastSends. destruct (broadcastReload_unfold n) as (tail & -> & H).
  now rewrite skipn_app_length.
Qed.

(** X3.  After the close event of a connection a broadcast sends it nothing:
    what is sent is what was sent before, without the messages to that
    connection, and the connection is no longer in the set. *)
Theorem closed_connection_is_pruned (id : nat) (n : Notifier) :
  broadcastSends (disconnect id n)
  = filter (fun m => negb (fst m =? id)%nat) (broadcastSends n)
  /\ ~ In (id, "reload") (broadcastSends (disconnect id n))
  /\ ~ In id (connected (disconnect id n)).
Proof.
  assert (E : broadcastSends (disconnect id n)
              = filter (fun m => negb (fst m =? id)%nat) (broadcastSends n)).
  { rewrite !broadcastSends_open. unfold disconnect. cbn [wsConnections].
    induction (wsConnections n) as [|ws conns IH]; [reflexivity|].
    simpl. destruct (sid ws =? id)%nat eqn:Hid; destruct (isOpen ws) eqn:Ho;
      simpl; rewrite ?Ho; simpl; rewrite ?Hid; simpl; now rewrite IH. }
  split; [exact E|]. split.
  - rewrite E. intros H. apply filter_In in H as [_ H].
    cbn [fst] in H. now rewrite Nat.eqb_refl in H.
  - unfold connected, disconnect. cbn [wsConnections].
    intros H. apply in_map_iff in H as (ws & Hs & Hin).
    apply filter_In in Hin as [_ Hin]. subst id.
    now rewrite Nat.eqb_refl in Hin.
Qed.

(** X4.  A connection that comes in is put last: a broadcast sends what it sent
    before and then, when the new connection is open, the token to it. *)
Theorem new_connection_is_served (ws : Socket) (n : Notifier) :
  wsConnections (connect ws n) = (wsConnections n ++ [ws])%list
  /\ broadcastSends (connect ws n)
     = (broadcastSends n
        ++ (if isOpen ws then [(sid ws, "reload")] else []))%list.
Proof.
  split; [reflexivity|].
  rewrite !broadcastSends_open. unfold connect. cbn [wsConnections].
  rewrite filter_app, map_app. cbn [filter].
  now destruct (isOpen ws).
Qed.

(** X5.  A connection that comes in and closes again leaves the set as it was,
    when its number was not in use. *)
Theorem connect_then_close_restores (ws : Socket) (n : Notifier) :
  ~ In (sid ws) (connected n) ->
  wsConnections (disconnect (sid ws) (connect ws n)) = wsConnections n.
Proof.
  unfold connected, disconnect, connect. cbn [wsConnections]. intros H.
  rewrite filter_app. cbn [filter]. rewrite Nat.eqb_refl. cbn [negb].
  rewrite app_nil_r.
  induction (wsConnections n) as [|c conns IH]; [reflexivity|].
  cbn [filter map] in *.
  destruct (Nat.eqb_spec (sid c) (sid ws)) as [E|E].
  - exfalso. apply H. now left.
  - cbn [negb]. f_equal. apply IH. intros Hin. apply H. now right.
Qed.

Lemma connect_then_close_restores_witness :
  wsConnections
    (disconnect 2 (connect {| sid := 2; readyState := 1 |}
                     {| wsConnections := [{| sid := 1; readyState := 1 |}];
                        trace := [] |}))
  = [{| sid := 1; readyState := 1 |}].
Proof.
  apply (connect_then_close_restores {| sid := 2; readyState := 1 |}
           {| wsConnections := [{| sid := 1; readyState := 1 |}]; trace := [] |}).
  cbn. intros [H|H]; [discriminate H | exact H].
Defined.


(** ** The file watcher: events apart, and where broadcasts come from *)

Section Watcher.

Variable relative : string -> string.

Lemma lastEvent_lastAt (rest : list WatchEvent) :
  forall e, at_ (lastEvent e rest) = lastAt (at_ e) rest.
Proof.
  induction rest as [|e' rest IH]; intros e; [reflexivity|].
  cbn [lastEvent lastAt]. apply IH.
Qed.

Lemma broadcasts_scheduleReload (t : Z) (ev path : string) (w : Watcher) :
  broadcasts (scheduleReload t ev path w) = broadcasts w.
Proof. reflexivity. Qed.

(** With a timer due and events that follow it and each other at the
    distance of the delay or more, the timer and every event get their
    broadcast. *)
Lemma run_spaced (rest : list WatchEvent) :
  forall (t T : Z) (w : Watcher) (tm : Timer),
    reloadTimer w = Some tm -> due tm = (t + 100)%Z ->
    spaced t rest = true ->
    (lastAt t rest + 100 <= T)%Z ->
    broadcasts (advance relative T (run relative rest w))
    = (broadcasts w ++ (t + 100)%Z :: map (fun x => (at_ x + 100)%Z) rest)%list.
Proof.
  induction rest as [|e rest IH]; intros t T w tm Hw Hd Hs HT.
  - cbn [run map lastAt] in *. unfold advance. rewrite Hw, Hd.
    destruct (Z.leb_spec (t + 100) T); [reflexivity | lia].
  - cbn [spaced] in Hs. apply andb_prop in Hs as [Hgap Hs].
    apply Z.leb_le in Hgap. unfold debounce in Hgap.
    cbn [run]. unfold onEvent at 1.
    assert (Ha : advance relative (at_ e) w = fire relative (due tm) tm w).
    { unfold advance. rewrite Hw, Hd.
      destruct (Z.leb_spec (t + 100) (at_ e)); [reflexivity | lia]. }
    rewrite Ha.
    rewrite (IH (at_ e) T _ {| due := at_ e + debounce;
                               eventType := label (kind e);
                               filePath := file e |}).
    + cbn [scheduleReload broadcasts fire]. rewrite Hd, <- app_assoc. reflexivity.
    + reflexivity.
    + reflexivity.
    + exact Hs.
    + exact HT.
Qed.

(** X7.  Watcher events that arrive 100 ms or more after one another are not
    merged: each of them leads to a broadcast of its own, 100 ms after
    it. *)
Theorem spaced_events_broadcast_each
  (e : WatchEvent) (rest : list WatchEvent) (w : Watcher) (T : Z) :
  spaced (at_ e) rest = true ->
  (forall tm, reloadTimer w = Some tm -> (at_ e < due tm)%Z) ->
  (at_ (lastEvent e rest) + 100 <= T)%Z ->
  broadcasts (advance relative T (run relative (e :: rest) w))
  = (broadcasts w ++ map (fun x => (at_ x + 100)%Z) (e :: rest))%list.
Proof.
  intros Hs Hw HT. cbn [run map]. unfold onEvent at 1.
  rewrite (advance_early relative (at_ e) w Hw).
  rewrite (run_spaced rest (at_ e) T _ {| due := at_ e + debounce;
                                          eventType := label (kind e);
                                          filePath := file e |});
    try reflexivity; try exact Hs.
  now rewrite <- lastEvent_lastAt.
Qed.

Lemma onEvent_effect (e : WatchEvent) (w : Watcher) :
  exists x,
    broadcasts (onEvent relative e w) = (broadcasts w ++ x)%list
    /\ List.length x <= pending w
    /\ (forall t, In t x -> exists tm, reloadTimer w = Some tm /\ due tm = t)
    /\ exists tm, reloadTimer (onEvent relative e w) = Some tm
                  /\ due tm = (at_ e + 100)%Z.
Proof.
  unfold onEvent, advance, pending.
  destruct (reloadTimer w) as [tm|] eqn:Hw.
  - destruct (due tm <=? at_ e)%Z.
    + exists [due tm]. cbn. split; [reflexivity|]. split; [lia|]. split.
      * intros t [<-|[]]. now exists tm.
      * eexists. split; reflexivity.
    + exists []. cbn. rewrite app_nil_r. split; [reflexivity|]. split; [lia|]. split.
      * intros t [].
      * eexists. split; reflexivity.
  - exists []. cbn. rewrite app_nil_r. split; [reflexivity|]. split; [lia|]. split.
    + intros t [].
    + eexists. split; reflexivity.
Qed.

(** Where the broadcasts of a run and the timer it leaves come from: the
    timer the run found, or an event of the run. *)
Lemma run_sources (es : list WatchEvent) :
  forall w, exists extra,
    broadcasts (run relative es w) = (broadcasts w ++ extra)%list
    /\ List.length extra + pending (run relative es w) <= pending w + List.length es
    /\ (forall t,
          In t extra
          \/ (exists tm, reloadTimer (run relative es w) = Some tm /\ due tm = t) ->
          (exists tm, reloadTimer w = Some tm /\ due tm = t)
          \/ exists e, In e es /\ t = (at_ e + 100)%Z).
Proof.
  induction es as [|e es IH]; intros w.
  - exists []. cbn [run List.length]. rewrite app_nil_r. split; [reflexivity|].
    split; [lia|]. intros t [[]|H]. now left.
  - cbn [run]. destruct (onEvent_effect e w) as (x & Hx & Lx & Sx & tm1 & Ht1 & Hd1).
    destruct (IH (onEvent relative e w)) as (extra & He & Le & Se).
    exists (x ++ extra)%list. rewrite He, Hx, <- app_assoc.
    split; [reflexivity|]. split.
    + rewrite length_app. cbn [List.length].
      assert (pending (onEvent relative e w) = 1)
        by (unfold pending; now rewrite Ht1).
      lia.
    + intros t Ht.
      assert (D : In t x \/ In t extra
                  \/ exists tm, reloadTimer (run relative es (onEvent relative e w)) = Some tm
                                /\ due tm = t).
      { destruct Ht as [Ht|Ht]; [apply in_app_or in Ht; tauto | tauto]. }
      destruct D as [D|D].
      * left. now apply Sx.
      * destruct (Se t D) as [(tm & Htm & Hdt)|(e' & Hin & Het)].
        -- right. exists e. split; [now left|].
           rewrite Ht1 in Htm. injection Htm as <-. lia.
        -- right. exists e'. split; [now right | exact Het].
Qed.

(** X8.  No broadcast without an event: on a watcher with no timer set, every
    broadcast of a run comes 100 ms after one of its events, and there are
    no more broadcasts than events. *)
Theorem broadcasts_follow_events (es : list WatchEvent) (w : Watcher) (T : Z) :
  reloadTimer w = None ->
  exists extra,
    broadcasts (advance relative T (run relative es w)) = (broadcasts w ++ extra)%list
    /\ List.length extra <= List.length es
    /\ forall t, In t extra -> exists e, In e es /\ t = (at_ e + 100)%Z.
Proof.
  intros Hw. destruct (run_sources es w) as (extra & He & Le & Se).
  assert (P : pending w = 0) by (unfold pending; now rewrite Hw).
  assert (S' : forall t,
             In t extra
             \/ (exists tm, reloadTimer (run relative es w) = Some tm /\ due tm = t) ->
             exists e, In e es /\ t = (at_ e + 100)%Z).
  { intros t Ht. destruct (Se t Ht) as [(tm & Htm & _)|H]; [|exact H].
    rewrite Hw in Htm. discriminate Htm. }
  unfold advance. unfold pending in Le at 1.
  destruct (reloadTimer (run relative es w)) as [tm|] eqn:Hr.
  - destruct (due tm <=? T)%Z.
    + exists (extra ++ [due tm])%list. cbn [fire broadcasts].
      rewrite He, <- app_assoc. split; [reflexivity|]. split.
      * rewrite length_app. cbn [List.length]. lia.
      * intros t Ht. apply in_app_or in Ht as [Ht|[<-|[]]].
        -- apply S'. now left.
        -- apply S'. right. now exists tm.
    + exists extra. split; [exact He|]. split; [lia|].
      intros t Ht. apply S'. now left.
  - exists extra. split; [exact He|]. split; [lia|].
    intros t Ht. apply S'. now left.
Qed.

End Watcher.

Lemma spaced_events_broadcast_each_witness :
  let w := {| reloadTimer := None;
              notifier := {| wsConnections := []; trace := [] |};
              broadcasts := [] |} in
  let first := {| at_ := 0; kind := Add; file := "src/index.html" |} in
  let rest := [ {| at_ := 100; kind := Change; file := "src/a.css" |};
                {| at_ := 350; kind := Unlink; file := "src/b.js" |} ] in
  broadcasts (advance (fun p => p) 450 (run (fun p => p) (first :: rest) w))
  = [100%Z; 200%Z; 450%Z].
Proof.
  intros w first rest.
  apply (spaced_events_broadcast_each (fun p => p) first rest w 450).
  - reflexivity.
  - intros tm H. discriminate H.
  - vm_compute. discriminate.
Defined.

Lemma broadcasts_follow_events_witness :
  let w := {| reloadTimer := None;
              notifier := {| wsConnections := []; trace := [] |};
              broadcasts := [] |} in
  let es := [ {| at_ := 0; kind := Add; file := "src/index.html" |};
              {| at_ := 30; kind := Change; file := "src/a.css" |} ] in
  exists extra,
    broadcasts (advance (fun p => p) 1000 (run (fun p => p) es w)) = ([] ++ extra)%list
    /\ List.length extra <= 2
    /\ forall t, In t extra -> exists e, In e es /\ t = (at_ e + 100)%Z.
Proof.
  intros w es.
  exact (broadcasts_follow_events (fun p => p) es w 1000 eq_refl).
Defined.

(** ** The client script: reconnecting *)

Lemma chain_step (st : Client.State) (e : Client.Event) :
  Client.isOpened e = false -> Client.chain st -> Client.chain (Client.step st e).
Proof.
  unfold Client.chain. intros He (H1 & H2 & H3 & H4).
  destruct e as [|d| |]; [discriminate He | | |]; cbn [Client.step].
  - destruct (0 <? Client.sockets st)%nat; [|now repeat split].
    unfold Client.onmessage. destruct (String.eqb d "reload"); now repeat split.
  - destruct (Nat.ltb_spec 0 (Client.sockets st)); [|now repeat split].
    unfold Client.onclose. cbn [Client.say Client.reconnectAttempts].
    destruct (Nat.ltb_spec (Client.reconnectAttempts st) Client.maxReconnectAttempts);
      cbn; repeat split; try lia.
  - destruct (Nat.ltb_spec 0 (Client.timers st)); [|now repeat split].
    unfold Client.ontimer, Client.connect. cbn. repeat split; try lia.
Qed.

Lemma chain_run (events : list Client.Event) :
  forall st, forallb (fun e => negb (Client.isOpened e)) events = true ->
             Client.chain st -> Client.chain (fold_left Client.step events st).
Proof.
  induction events as [|e events IH]; intros st Hn Hc; [exact Hc|].
  cbn [forallb] in Hn. apply andb_prop in Hn as [He Hn].
  cbn [fold_left]. apply IH; [exact Hn|]. apply chain_step; [|exact Hc].
  now destruct (Client.isOpened e).
Qed.

Lemma idle_step (st : Client.State) (e : Client.Event) :
  Client.sockets st = 0 -> Client.timers st = 0 -> Client.step st e = st.
Proof. intros Hs Ht. destruct e; cbn [Client.step]; now rewrite ?Hs, ?Ht. Qed.

Lemma idle_run (events : list Client.Event) (st : Client.State) :
  Client.sockets st = 0 -> Client.timers st = 0 ->
  fold_left Client.step events st = st.
Proof.
  intros Hs Ht. induction events as [|e events IH]; [reflexivity|].
  cbn [fold_left]. now rewrite idle_step.
Qed.

(** X9.  As long as no socket opens, the page calls [connect] eleven times at
    most: once at the start and once for each of the ten retries; it never
    has more than one socket or timer, and once it has neither, nothing
    more happens, whatever the events. *)
Theorem reconnects_stop_after_ten (events more : list Client.Event) :
  forallb (fun e => negb (Client.isOpened e)) events = true ->
  let st := Client.run events in
  Client.connects st <= 11
  /\ Client.reconnectAttempts st <= 10
  /\ Client.sockets st + Client.timers st <= 1
  /\ (Client.sockets st + Client.timers st = 0 ->
      Client.run (events ++ more)%list = st).
Proof.
  intros Hn st.
  assert (C : Client.chain st).
  { apply chain_run; [exact Hn|]. unfold Client.chain, Client.maxReconnectAttempts.
    cbn. repeat split; lia. }
  destruct C as (H1 & H2 & H3 & H4). unfold Client.maxReconnectAttempts in *.
  repeat split; try lia.
  intros Hz. unfold Client.run. rewrite fold_left_app.
  apply idle_run; fold (Client.run events); fold st; lia.
Qed.

Lemma reconnects_stop_after_ten_witness :
  let failing := [Client.Closed; Client.Tick] in
  let events := (concat (repeat failing 10) ++ [Client.Closed])%list in
  Client.connects (Client.run events) = 11
  /\ Client.run (events ++ [Client.Tick; Client.Closed; Client.Message "reload"])%list
     = Client.run events.
Proof.
  intros failing events. split; [reflexivity|].
  apply (reconnects_stop_after_ten events
           [Client.Tick; Client.Closed; Client.Message "reload"] eq_refl).
  reflexivity.
Defined.

(** ** The MIME classifier: file names *)

Lemma list_ascii_app (a b : string) :
  list_ascii_of_string (a ++ b)
  = (list_ascii_of_string a ++ list_ascii_of_string b)%list.
Proof. induction a as [|c a IH]; [reflexivity | cbn; now rewrite IH]. Qed.

Lemma string_of_list_app (a b : list ascii) :
  string_of_list_ascii (a ++ b)%list
  = string_of_list_ascii a ++ string_of_list_ascii b.
Proof. induction a as [|c a IH]; [reflexivity | cbn; now rewrite IH]. Qed.

Lemma isWord_chars (w : string) :
  Path.isWord w = true ->
  Forall (fun c => JS.isChar c Path.dot = false /\ JS.isChar c Path.slash = false)
         (list_ascii_of_string w).
Proof.
  induction w as [|c w IH]; intros H; [constructor|].
  cbn [Path.isWord] in H. apply andb_prop in H as [H Hw].
  apply andb_prop in H as [Hd Hs]. apply negb_true_iff in Hd, Hs.
  constructor; [now split | now apply IH].
Qed.

(** The scan of the last component goes over the characters of a word and
    stops at no slash. *)
Lemma lastComponentRev_word (l rest : list ascii) (b : bool) :
  Forall (fun c => JS.isChar c Path.dot = false /\ JS.isChar c Path.slash = false) l ->
  l <> [] ->
  Path.lastComponentRev b (l ++ rest)%list
  = (l ++ Path.lastComponentRev false rest)%list.
Proof.
  intros H. revert b. induction H as [|c l [_ Hc] Hl IH]; intros b Hne; [easy|].
  cbn [app Path.lastComponentRev]. unfold Path.isPosixPathSeparator. rewrite Hc.
  f_equal. destruct l as [|d l]; [reflexivity|]. now apply IH.
Qed.

Lemma escan_word (l rest : list ascii) :
  Forall (fun c => JS.isChar c Path.dot = false /\ JS.isChar c Path.slash = false) l ->
  forall k st, Path.startDot st = None ->
    Path.escan k (l ++ rest)%list st = Path.escan (k + List.length l) rest st.
Proof.
  induction 1 as [|c l [Hc _] Hl IH]; intros k st Hst.
  - cbn. now rewrite Nat.add_0_r.
  - cbn [app Path.escan List.length]. unfold Path.estep at 1. rewrite Hc, Hst.
    rewrite IH by exact Hst. f_equal. lia.
Qed.

(** Once the dot is found and something stands before it, the scan keeps
    both. *)
Lemma escan_after_dot (l : list ascii) :
  forall k j st, Path.startDot st = Some j -> Path.preDotState st <> 0%Z ->
    Path.startDot (Path.escan k l st) = Some j
    /\ Path.preDotState (Path.escan k l st) <> 0%Z.
Proof.
  induction l as [|c l IH]; intros k j st Hs Hp; [now split|].
  cbn [Path.escan]. apply IH.
  - unfold Path.estep. rewrite Hs. now destruct (JS.isChar c Path.dot).
  - unfold Path.estep. rewrite Hs. now destruct (JS.isChar c Path.dot).
Qed.

(** The extension of a file name: a word after the last dot of a name
    that has something other than a slash before that dot. *)
Lemma extname_of_name (dir : string) (c : ascii) (w : string) :
  JS.isChar c Path.slash = false ->
  Path.isWord w = true -> w <> EmptyString ->
  Path.extname (dir ++ String c ("." ++ w)) = "." ++ w.
Proof.
  intros Hc Hw Hne. unfold Path.extname.
  pose proof (isWord_chars w Hw) as Fw.
  set (lw := list_ascii_of_string w) in *.
  assert (Hlw : lw <> []) by (subst lw; destruct w; [easy | discriminate]).
  assert (Frev : Forall (fun c => JS.isChar c Path.dot = false
                                  /\ JS.isChar c Path.slash = false) (rev lw))
    by (apply Forall_rev; exact Fw).
  assert (Hrev : rev lw <> [])
    by (intros E; apply Hlw; rewrite <- (rev_involutive lw), E; reflexivity).
  assert (R : rev (list_ascii_of_string (dir ++ String c ("." ++ w)))
              = (rev lw ++ "."%char :: c :: rev (list_ascii_of_string dir))%list).
  { rewrite list_ascii_app.
    change (list_ascii_of_string (String c ("." ++ w)))
      with (c :: "."%char :: lw).
    rewrite rev_app_distr. cbn [rev]. rewrite <- !app_assoc. reflexivity. }
  rewrite R.
  rewrite (lastComponentRev_word (rev lw) _ true Frev Hrev).
  cbn [Path.lastComponentRev]. unfold Path.isPosixPathSeparator.
  replace (JS.isChar "." Path.slash) with false by reflexivity. rewrite Hc.
  set (tail := Path.lastComponentRev false (rev (list_ascii_of_string dir))).
  rewrite (escan_word (rev lw) _ Frev) by reflexivity.
  cbn [Path.escan Nat.add].
  change (Path.estep (List.length (rev lw)) "."%char
            {| Path.startDot := None; Path.preDotState := 0 |})
    with {| Path.startDot := Some (List.length (rev lw)); Path.preDotState := 0 |}.
  destruct (escan_after_dot tail (S (S (List.length (rev lw)))) (List.length (rev lw))
              (Path.estep (S (List.length (rev lw))) c
                 {| Path.startDot := Some (List.length (rev lw));
                    Path.preDotState := 0 |})) as [E1 E2].
  { unfold Path.estep. cbn. now destruct (JS.isChar c Path.dot). }
  { unfold Path.estep. cbn. now destruct (JS.isChar c Path.dot). }
  rewrite E1. apply Z.eqb_neq in E2. rewrite E2. cbn [orb].
  assert (K : (List.length (rev lw) =? 0)%nat = false).
  { apply Nat.eqb_neq. destruct (rev lw); [easy | discriminate]. }
  rewrite K, andb_false_r, andb_false_l.
  replace (firstn (S (List.length (rev lw))) (rev lw ++ "."%char :: c :: tail)%list)
    with (rev lw ++ ["."%char])%list.
  2:{ change ("."%char :: c :: tail) with (["."%char] ++ c :: tail)%list.
      rewrite app_assoc.
      replace (S (List.length (rev lw))) with (List.length (rev lw ++ ["."%char])%list)
        by (rewrite length_app; cbn; lia).
      now rewrite firstn_app, Nat.sub_diag, firstn_all, firstn_O, app_nil_r. }
  rewrite rev_app_distr, rev_involutive. cbn [rev app string_of_list_ascii].
  subst lw. now rewrite string_of_list_ascii_of_string.
Qed.

(** A name that is a dot and a word, in a directory or alone, has no
    extension. *)
Lemma extname_of_dot_file (d w : string) :
  Path.isWord w = true ->
  Path.extname (d ++ "/." ++ w) = EmptyString
  /\ Path.extname ("." ++ w) = EmptyString.
Proof.
  intros Hw. pose proof (isWord_chars w Hw) as Fw.
  set (lw := list_ascii_of_string w) in *.
  assert (Frev : Forall (fun c => JS.isChar c Path.dot = false
                                  /\ JS.isChar c Path.slash = false) (rev lw))
    by (apply Forall_rev; exact Fw).
  assert (S1 : forall b rest,
             Path.lastComponentRev b (rev lw ++ "."%char :: "/"%char :: rest)%list
             = (rev lw ++ ["."%char])%list).
  { intros b rest. destruct (rev lw) as [|x l] eqn:E; [reflexivity|].
    rewrite <- E in *. rewrite lastComponentRev_word; [reflexivity | exact Frev |].
    rewrite E. discriminate. }
  assert (S2 : forall b,
             Path.lastComponentRev b (rev lw ++ ["."%char])%list
             = (rev lw ++ ["."%char])%list).
  { intros b. destruct (rev lw) as [|x l] eqn:E; [reflexivity|].
    rewrite <- E in *. rewrite lastComponentRev_word; [reflexivity | exact Frev |].
    rewrite E. discriminate. }
  assert (Sc : Path.escan 0 (rev lw ++ ["."%char])%list
                 {| Path.startDot := None; Path.preDotState := 0 |}
               = {| Path.startDot := Some (List.length (rev lw));
                    Path.preDotState := 0 |}).
  { rewrite (escan_word (rev lw) _ Frev) by reflexivity. reflexivity. }
  split; unfold Path.extname.
  - assert (R : rev (list_ascii_of_string (d ++ "/." ++ w))
                = (rev lw ++ "."%char :: "/"%char :: rev (list_ascii_of_string d))%list).
    { rewrite list_ascii_app.
      change (list_ascii_of_string ("/." ++ w)) with ("/"%char :: "."%char :: lw).
      rewrite rev_app_distr. cbn [rev]. rewrite <- !app_assoc. reflexivity. }
    rewrite R, S1, Sc. reflexivity.
  - assert (R : rev (list_ascii_of_string ("." ++ w)) = (rev lw ++ ["."%char])%list)
      by reflexivity.
    rewrite R, S2, Sc. reflexivity.
Qed.

(** X10.  A file whose name ends with a dot and an extension of the fixed table,
    in small or capital letters, and has a character other than a slash
    before that dot, gets the type of the table, in any directory and
    whatever the library knows. *)
Theorem named_extension_decides_type
  (mimeLookup : string -> option string) (dir : string) (c : ascii) (w v : string) :
  JS.isChar c Path.slash = false ->
  Path.isWord w = true ->
  property customMimeTypes (JS.toLowerCase ("." ++ w)) = Some v ->
  getMimeType mimeLookup (dir ++ String c ("." ++ w)) = v.
Proof.
  intros Hc Hw Hp.
  assert (Hne : w <> EmptyString).
  { intros ->. vm_compute in Hp. discriminate Hp. }
  unfold getMimeType. rewrite (extname_of_name dir c w Hc Hw Hne), Hp.
  cbn [JS.orElse]. now rewrite (customMimeTypes_truthy _ _ Hp).
Qed.

Lemma named_extension_decides_type_witness :
  getMimeType (fun _ => Some "application/x-unknown") "assets/css/Main.CSS"
  = "text/css; charset=utf-8".
Proof.
  apply (named_extension_decides_type (fun _ => Some "application/x-unknown")
           "assets/css/Mai" "n" "CSS" "text/css; charset=utf-8");
    reflexivity.
Defined.

(** X11.  A file whose whole name is a dot and a word, such as [.html], has no
    extension: the fixed table is not asked, and the type is what the
    library says, or application/octet-stream. *)
Theorem dot_file_is_not_in_table
  (mimeLookup : string -> option string) (d w : string) :
  Path.isWord w = true ->
  getMimeType mimeLookup (d ++ "/." ++ w)
  = JS.orElse (fun s => s) (mimeLookup (d ++ "/." ++ w)) "application/octet-stream".
Proof.
  intros Hw. unfold getMimeType.
  destruct (extname_of_dot_file d w Hw) as [-> _]. reflexivity.
Qed.

Lemma dot_file_is_not_in_table_witness :
  getMimeType (fun _ => None) "pages/.html" = "application/octet-stream".
Proof.
  apply (dot_file_is_not_in_table (fun _ => None) "pages" "html"). reflexivity.
Defined.

(** The type is never the empty text, whatever the library answers. *)
Theorem getMimeType_not_empty (mimeLookup : string -> option string) (p : string) :
  JS.truthy (getMimeType mimeLookup p) = true.
Proof.
  unfold getMimeType.
  destruct (property customMimeTypes (JS.toLowerCase (Path.extname p))) as [v|] eqn:E;
    cbn [JS.orElse].
  - now rewrite (customMimeTypes_truthy _ _ E), (customMimeTypes_truthy _ _ E).
  - destruct (mimeLookup p) as [t|]; cbn [JS.orElse]; [|reflexivity].
    destruct (JS.truthy t) eqn:T; [exact T | reflexivity].
Qed.

(** ** Decoding and encoding: what comes out is well-formed *)

Lemma wellFormed_replacement (x : string) :
  Buffer.wellFormed (Buffer.replacement ++ x) = Buffer.wellFormed x.
Proof. reflexivity. Qed.

Lemma wellFormed_toString_upto (n : nat) :
  forall b, String.length b <= n -> Buffer.wellFormed (Buffer.toString b) = true.
Proof.
  induction n as [|n IH]; intros b Hn.
  - destruct b; [reflexivity | simpl in Hn; lia].
  - destruct b as [|c r]; [reflexivity|]. cbn [String.length] in Hn.
    assert (K : forall x, String.length x <= String.length r ->
                          Buffer.wellFormed (Buffer.toString x) = true)
      by (intros x Hx; apply IH; lia).
    clear IH Hn. rewrite toString_step. cbn [Buffer.decodeStep].
    destruct r as [|c1 [|c2 [|c3 r3]]]; cbn [String.length] in K;
      repeat match goal with
             | |- context [if ?b then _ else _] => destruct b eqn:?
             end;
      rewrite ?wellFormed_replacement;
      try reflexivity;
      try (apply K; cbn [String.length]; lia);
      cbn [Buffer.wellFormed];
      repeat match goal with
             | H : _ = _ |- _ => rewrite H
             end;
      cbn [andb]; try reflexivity; try (apply K; cbn [String.length]; lia).
Qed.

(** Whatever the bytes are, what the decoder gives is well-formed. *)
Lemma wellFormed_toString (b : string) :
  Buffer.wellFormed (Buffer.toString b) = true.
Proof. apply (wellFormed_toString_upto (String.length b)). lia. Qed.

Lemma wellFormed_cons (c : ascii) (r : string) :
  Buffer.wellFormed (String c r)
  = let n := nat_of_ascii c in
    if (n <? 128)%nat then Buffer.wellFormed r
    else if Buffer.inRange 194 223 c then
      match r with
      | String c1 r1 => Buffer.cont c1 && Buffer.wellFormed r1
      | EmptyString => false
      end
    else if Buffer.inRange 224 239 c then
      match r with
      | String c1 (String c2 r2) =>
          Buffer.inRange (Buffer.lower n) (Buffer.upper n) c1
          && Buffer.cont c2 && Buffer.wellFormed r2
      | _ => false
      end
    else if Buffer.inRange 240 244 c then
      match r with
      | String c1 (String c2 (String c3 r3)) =>
          Buffer.inRange (Buffer.lower n) (Buffer.upper n) c1
          && Buffer.cont c2 && Buffer.cont c3 && Buffer.wellFormed r3
      | _ => false
      end
    else false.
Proof. reflexivity. Qed.

Lemma wellFormed_app_upto (n : nat) :
  forall a b, String.length a <= n -> Buffer.wellFormed a = true ->
              Buffer.wellFormed (a ++ b) = Buffer.wellFormed b.
Proof.
  induction n as [|n IH]; intros a b Hn Hw.
  - destruct a; [reflexivity | simpl in Hn; lia].
  - destruct a as [|c r]; [reflexivity|]. cbn [String.length] in Hn.
    assert (K : forall x, String.length x <= String.length r ->
                          Buffer.wellFormed x = true ->
                          Buffer.wellFormed (x ++ b) = Buffer.wellFormed b)
      by (intros x Hx; apply IH; lia).
    clear IH Hn.
    change (String c r ++ b) with (String c (r ++ b)).
    rewrite wellFormed_cons in Hw |- *. cbv zeta in Hw |- *.
    destruct r as [|c1 [|c2 [|c3 r3]]]; cbn [String.length append] in *;
      repeat match goal with
             | |- context [if ?b then _ else _] => destruct b
             end;
      try discriminate Hw; split_andb;
      repeat match goal with
             | H : _ = true |- _ => rewrite H
             end;
      cbn [andb]; try reflexivity;
      match goal with
      | H : Buffer.wellFormed ?x = true |- _ = Buffer.wellFormed b =>
          apply (K x); [cbn [String.length]; lia | exact H]
      end.
Qed.

(** Well-formed bytes in front change nothing to whether the bytes that
    follow are well-formed. *)
Lemma wellFormed_app (a b : string) :
  Buffer.wellFormed a = true -> Buffer.wellFormed (a ++ b) = Buffer.wellFormed b.
Proof. apply (wellFormed_app_upto (String.length a)). lia. Qed.

(** X12.  The round trip of [serveFile]: decoding the bytes of a file and
    encoding the text again gives the bytes back exactly when they are
    well-formed UTF-8; decoding twice is decoding once. *)
Theorem decode_encode_round_trip (b : string) :
  (Buffer.from (Buffer.toString b) = b <-> Buffer.wellFormed b = true)
  /\ Buffer.toString (Buffer.from (Buffer.toString b)) = Buffer.toString b.
Proof.
  split.
  - split.
    + unfold Buffer.from. intros <-. apply wellFormed_toString.
    + apply toString_wellFormed.
  - apply (toString_wellFormed (Buffer.toString b)). apply wellFormed_toString.
Qed.

(** ** The content responder: headers and length *)

(** A text that holds the closing body tag splits at the first one. *)
Lemma first_tag_split (s : string) :
  JS.includes "</body>" s = true ->
  exists a b, s = a ++ "</body>" ++ b
              /\ JS.includes "</body>" (a ++ "</body") = false.
Proof.
  induction s as [|c s IH]; intros H; [discriminate H|].
  rewrite includes_cons in H.
  destruct (JS.startsWith "</body>" (String c s)) eqn:E.
  - exists EmptyString, (JS.drop 7 (String c s)). split; [|reflexivity].
    assert (I : JS.indexOf "</body>" (String c s) = Some 0)
      by (cbn [JS.indexOf]; now rewrite E).
    apply indexOf_split in I. exact I.
  - cbn [orb] in H. destruct (IH H) as (a & b & -> & Hf).
    exists (String c a), b. split; [reflexivity|].
    change (String c a ++ "</body") with (String c (a ++ "</body")).
    rewrite includes_cons, Hf, orb_false_r.
    now rewrite <- startsWith_tag_cons with (b := b).
Qed.

Lemma indexOf_unfold (p s : string) :
  JS.indexOf p s
  = if JS.startsWith p s then Some 0
    else match s with
         | EmptyString => None
         | String _ r => option_map S (JS.indexOf p r)
         end.
Proof. destruct s; reflexivity. Qed.

Lemma includes_intro (p a b : string) : JS.includes p (a ++ p ++ b) = true.
Proof.
  induction a as [|c a IH].
  - unfold JS.includes. cbn [append].
    now rewrite indexOf_unfold, startsWith_refl_app.
  - change (String c a ++ p ++ b) with (String c (a ++ p ++ b)).
    rewrite includes_cons, IH. apply orb_true_r.
Qed.

Section Headers.

Variable mimeLookup : string -> option string.
Variable env : Env.
Variable readFile : string -> option string.
Variable wsServer : option JS.value.
Variable filePath : string.

Let r := serveFile mimeLookup env readFile wsServer filePath.

(** X13.  A file that is read is answered with the three headers that forbid
    caching and with its type, which is never empty, whether or not the
    body is rewritten; the error page for a file that cannot be read
    carries none of the three. *)
Theorem caching_is_off_for_files_only :
  match readFile (fullPath env filePath) with
  | Some _ =>
      status r = 200%Z
      /\ header "Cache-Control" (headers r)
         = Some (JS.Str "no-cache, no-store, must-revalidate")
      /\ header "Pragma" (headers r) = Some (JS.Str "no-cache")
      /\ header "Expires" (headers r) = Some (JS.Str "0")
      /\ header "Content-Type" (headers r)
         = Some (JS.Str (getMimeType mimeLookup filePath))
      /\ JS.truthy (getMimeType mimeLookup filePath) = true
  | None =>
      status r = 404%Z
      /\ header "Cache-Control" (headers r) = None
      /\ header "Pragma" (headers r) = None
      /\ header "Expires" (headers r) = None
      /\ header "Content-Length" (headers r) = None
  end.
Proof.
  subst r. unfold serveFile.
  destruct (readFile (fullPath env filePath)) as [data|]; [|now repeat split].
  destruct (JS.includes "text/html" (getMimeType mimeLookup filePath)
            && isActive wsServer);
    repeat split; apply getMimeType_not_empty.
Qed.

End Headers.

(** X14.  With the script put in, the length announced is the length of the
    decoded file plus the length of the script; for a well-formed file,
    the length of the file plus the length of the script. *)
Theorem content_length_adds_script
  (mimeLookup : string -> option string) (env : Env)
  (readFile : string -> option string) (wsServer : option JS.value)
  (filePath data : string) :
  readFile (fullPath env filePath) = Some data ->
  JS.includes "text/html" (getMimeType mimeLookup filePath) && isActive wsServer = true ->
  plain (JS.toString (wsPort (config env))) = true ->
  JS.includes "</body>" data = true ->
  let r := serveFile mimeLookup env readFile wsServer filePath in
  let script := liveReloadScript (config env) in
  header "Content-Length" (headers r)
  = Some (JS.Num (Z.of_nat (String.length (Buffer.toString data)
                            + String.length script)))
  /\ (Buffer.wellFormed data = true ->
      header "Content-Length" (headers r)
      = Some (JS.Num (Z.of_nat (String.length data + String.length script)))).
Proof.
  intros Hr Hi Hp Ht r script.
  destruct (served_rewritten mimeLookup env readFile wsServer filePath data Hr Hi)
    as (_ & _ & Hl).
  destruct (first_tag_split data Ht) as (a & b & Hd & Hf).
  pose proof (body_with_script mimeLookup env readFile wsServer filePath data Hr
                a b Hi Hp Hd Hf) as Hb.
  fold r in Hl, Hb. fold script in Hb.
  assert (L : String.length (body r)
              = String.length (Buffer.toString data) + String.length script).
  { rewrite Hb, Hd, toString_around_tag. rewrite !length_append. lia. }
  split.
  - now rewrite Hl, L.
  - intros Hw. rewrite Hl, L.
    pose proof (toString_wellFormed data Hw) as E. unfold Buffer.from in E.
    now rewrite E.
Qed.

Lemma content_length_adds_script_witness :
  let data := "<html><body><p>hi</p></body></html>" in
  let r := serveFile (fun _ => None) sampleEnv
             (oneFile "/srv/site/src/index.html" data)
             (createWebSocketServer sampleEnv true) "index.html" in
  header "Content-Length" (headers r)
  = Some (JS.Num (Z.of_nat (35 + String.length (liveReloadScript (config sampleEnv))))).
Proof.
  intros data r.
  destruct (content_length_adds_script (fun _ => None) sampleEnv
              (oneFile "/srv/site/src/index.html" data)
              (createWebSocketServer sampleEnv true) "index.html" data
              eq_refl eq_refl eq_refl eq_refl) as [_ H].
  exact (H eq_refl).
Defined.

(** X15.  Whatever bytes an HTML file holds, the body sent with the script put
    in is well-formed UTF-8 (the text of PORT being well-formed and
    without a dollar sign). *)
Theorem rewritten_body_is_wellFormed
  (mimeLookup : string -> option string) (env : Env)
  (readFile : string -> option string) (wsServer : option JS.value)
  (filePath data : string) :
  readFile (fullPath env filePath) = Some data ->
  JS.includes "text/html" (getMimeType mimeLookup filePath) && isActive wsServer = true ->
  plain (JS.toString (wsPort (config env))) = true ->
  Buffer.wellFormed (JS.toString (wsPort (config env))) = true ->
  Buffer.wellFormed (body (serveFile mimeLookup env readFile wsServer filePath)) = true.
Proof.
  intros Hr Hi Hp Hw.
  destruct (JS.includes "</body>" data) eqn:Ht.
  - destruct (first_tag_split data Ht) as (a & b & Hd & Hf).
    rewrite (body_with_script mimeLookup env readFile wsServer filePath data Hr
               a b Hi Hp Hd Hf).
    rewrite wellFormed_app by apply wellFormed_toString.
    unfold liveReloadScript. rewrite !append_assoc.
    rewrite wellFormed_app by (vm_compute; reflexivity).
    rewrite wellFormed_app by exact Hw.
    rewrite wellFormed_app by (vm_compute; reflexivity).
    rewrite (wellFormed_app "</body>") by reflexivity.
    apply wellFormed_toString.
  - rewrite (body_without_tag mimeLookup env readFile wsServer filePath data Hr Hi Ht).
    apply wellFormed_toString.
Qed.

Lemma rewritten_body_is_wellFormed_witness :
  let data := Buffer.ofBytes [255; 60; 47; 98; 111; 100; 121; 62; 192; 128] in
  Buffer.wellFormed data = false
  /\ Buffer.wellFormed
       (body (serveFile (fun _ => None) sampleEnv
                (oneFile "/srv/site/src/index.html" data)
                (createWebSocketServer sampleEnv true) "index.html")) = true.
Proof.
  intros data. split; [reflexivity|].
  apply (rewritten_body_is_wellFormed (fun _ => None) sampleEnv
           (oneFile "/srv/site/src/index.html" data)
           (createWebSocketServer sampleEnv true) "index.html" data);
    reflexivity.
Defined.

(** X16.  The script a page gets connects to the port the push channel was
    given: the text of [config.port + 1], whatever PORT holds. *)
Theorem script_connects_to_push_port (env : Env) (p : JS.value) :
  createWebSocketServer env true = Some p ->
  JS.includes ("new WebSocket('ws://localhost:" ++ JS.toString p ++ "');")
              (liveReloadScript (config env)) = true.
Proof.
  unfold createWebSocketServer. intros [= <-]. unfold liveReloadScript.
  assert (H1 : liveReloadScriptHead
               = JS.take 200 liveReloadScriptHead ++ "new WebSocket('ws://localhost:")
    by (vm_compute; reflexivity).
  assert (H2 : liveReloadScriptTail = "');" ++ JS.drop 3 liveReloadScriptTail)
    by (vm_compute; reflexivity).
  rewrite H1, H2, !append_assoc.
  set (t := JS.drop 3 liveReloadScriptTail).
  set (h := JS.take 200 liveReloadScriptHead).
  replace ("new WebSocket('ws://localhost:"
           ++ JS.toString (wsPort (config env)) ++ "');" ++ t)
    with (("new WebSocket('ws://localhost:"
           ++ JS.toString (wsPort (config env)) ++ "');") ++ t)
    by (now rewrite !append_assoc).
  apply includes_intro.
Qed.

Lemma script_connects_to_push_port_witness :
  JS.includes "new WebSocket('ws://localhost:3001');"
              (liveReloadScript (config sampleEnv)) = true.
Proof.
  apply (script_connects_to_push_port sampleEnv (JS.Num 3001)). reflexivity.
Defined.

(** ** What [path.normalize] computes *)

Lemma append_cons_end (s : string) (c : ascii) (r : string) :
  (s ++ String c EmptyString) ++ r = s ++ String c r.
Proof. now rewrite append_assoc. Qed.

Lemma onlyDots_snoc (s : string) (c : ascii) :
  Path.onlyDots (s ++ String c EmptyString) = Path.onlyDots s && JS.isChar c Path.dot.
Proof.
  induction s as [|a s IH]; cbn [append Path.onlyDots].
  - now rewrite andb_true_r.
  - rewrite IH. now rewrite andb_assoc.
Qed.

Lemma length_snoc (s : string) (c : ascii) :
  String.length (s ++ String c EmptyString) = S (String.length s).
Proof. rewrite length_append. cbn. lia. Qed.

(** The counter [dots] follows the segment that is read. *)
Lemma dotsOf_snoc (s : string) (c : ascii) :
  Path.dotsOf (s ++ String c EmptyString)
  = if JS.isChar c Path.dot && negb (Path.dotsOf s =? -1)%Z
    then (Path.dotsOf s + 1)%Z else (-1)%Z.
Proof.
  unfold Path.dotsOf. rewrite onlyDots_snoc, length_snoc.
  destruct (Path.onlyDots s); destruct (JS.isChar c Path.dot); cbn [andb negb];
    try reflexivity.
  destruct (Z.eqb_spec (Z.of_nat (String.length s)) (-1)); [lia|].
  cbn [negb]. lia.
Qed.

Lemma dotsOf_one (s : string) : Path.dotsOf s = 1%Z <-> s = ".".
Proof.
  unfold Path.dotsOf. split.
  - destruct s as [|a [|b s]]; cbn [Path.onlyDots String.length].
    + discriminate.
    + rewrite andb_true_r. unfold JS.isChar.
      destruct (Ascii.eqb_spec a Path.dot) as [->|]; [reflexivity | discriminate].
    + destruct (JS.isChar a Path.dot && (JS.isChar b Path.dot && Path.onlyDots s));
        intros H; [lia | discriminate H].
  - intros ->. reflexivity.
Qed.

Lemma dotsOf_two (s : string) : Path.dotsOf s = 2%Z <-> s = "..".
Proof.
  unfold Path.dotsOf. split.
  - destruct s as [|a [|b [|c s]]]; cbn [Path.onlyDots String.length].
    + discriminate.
    + destruct (JS.isChar a Path.dot && true); discriminate.
    + rewrite andb_true_r. unfold JS.isChar.
      destruct (Ascii.eqb_spec a Path.dot) as [->|]; [|discriminate].
      destruct (Ascii.eqb_spec b Path.dot) as [->|]; [reflexivity | discriminate].
    + destruct (JS.isChar a Path.dot
                && (JS.isChar b Path.dot && (JS.isChar c Path.dot && Path.onlyDots s)));
        intros H; [lia | discriminate H].
  - intros ->. reflexivity.
Qed.

Lemma isName_parts (s : string) :
  Path.isName s = true ->
  s <> EmptyString /\ Path.noSlash s = true /\ s <> "." /\ s <> "..".
Proof.
  unfold Path.isName. intros H. split_andb.
  repeat match goal with
         | H : negb _ = true |- _ => apply negb_true_iff, String.eqb_neq in H
         end.
  now repeat split.
Qed.

Lemma joinSegs_snoc (l : list string) (x : string) :
  l <> [] -> Path.joinSegs (l ++ [x])%list = Path.joinSegs l ++ "/" ++ x.
Proof.
  induction l as [|a l IH]; intros H; [easy|].
  destruct l as [|b l]; [reflexivity|].
  change (Path.joinSegs ((a :: b :: l) ++ [x])%list)
    with (a ++ "/" ++ Path.joinSegs ((b :: l) ++ [x])%list).
  rewrite IH by discriminate.
  change (Path.joinSegs (a :: b :: l)) with (a ++ "/" ++ Path.joinSegs (b :: l)).
  now rewrite !append_assoc.
Qed.

Lemma names_snoc (l : list string) (x : string) :
  Forall (fun s => Path.isName s = true) (l ++ [x])%list ->
  Forall (fun s => Path.isName s = true) l /\ Path.isName x = true.
Proof.
  intros H. apply Forall_app in H as [H1 H2]. split; [exact H1|].
  now inversion H2.
Qed.

Lemma length_joinSegs_names (l : list string) :
  Forall (fun s => Path.isName s = true) l -> l <> [] ->
  0 < String.length (Path.joinSegs l).
Proof.
  intros H Hne. destruct l as [|a l]; [easy|].
  inversion H as [|? ? Ha _]; subst. apply isName_parts in Ha as (Ha & _).
  destruct a as [|c a]; [easy|]. destruct l; cbn; lia.
Qed.

Lemma lastIndexOf_noSlash (x : string) :
  Path.noSlash x = true -> JS.lastIndexOfChar Path.slash x = None.
Proof.
  induction x as [|c x IH]; intros H; [reflexivity|].
  cbn [Path.noSlash] in H. apply andb_prop in H as [Hc Hx].
  cbn [JS.lastIndexOfChar]. rewrite (IH Hx).
  unfold Path.isPosixPathSeparator in Hc. apply negb_true_iff in Hc. now rewrite Hc.
Qed.

Lemma lastIndexOf_last_slash (pre x : string) :
  Path.noSlash x = true ->
  JS.lastIndexOfChar Path.slash (pre ++ "/" ++ x) = Some (String.length pre).
Proof.
  intros Hx. induction pre as [|c pre IH].
  - cbn [append JS.lastIndexOfChar]. now rewrite (lastIndexOf_noSlash x Hx).
  - change (String c pre ++ "/" ++ x) with (String c (pre ++ "/" ++ x)).
    cbn [JS.lastIndexOfChar]. now rewrite IH.
Qed.

Lemma get_app_right (pre x : string) (i : nat) :
  String.get (String.length pre + i) (pre ++ x) = String.get i x.
Proof. induction pre as [|c pre IH]; [reflexivity | exact IH]. Qed.

(** A text that ends with a segment of two characters ends with two dots
    only when that segment is two dots. *)
Lemma endsWithDotDot_suffix (pre x : string) :
  String.length x = 2 -> Path.endsWithDotDot (pre ++ x) = true -> x = "..".
Proof.
  intros Hx. unfold Path.endsWithDotDot. rewrite length_append, Hx.
  replace (String.length pre + 2 - 1) with (String.length pre + 1) by lia.
  replace (String.length pre + 2 - 2) with (String.length pre + 0) by lia.
  rewrite !get_app_right.
  destruct x as [|a [|b [|c x]]]; try discriminate Hx.
  cbn [String.get]. unfold JS.isChar. intros H. apply andb_prop in H as [Hb Ha].
  apply Ascii.eqb_eq in Ha, Hb. now subst.
Qed.

Lemma stepSeg_skip (names : list string) (s : string) :
  s = EmptyString \/ s = "." -> Path.stepSeg names s = names.
Proof. intros [->| ->]; reflexivity. Qed.

Lemma stepSeg_up (names : list string) :
  Path.stepSeg names ".." = removelast names.
Proof. reflexivity. Qed.

Lemma stepSeg_name (names : list string) (s : string) :
  s <> EmptyString -> s <> "." -> s <> ".." ->
  Path.stepSeg names s = (names ++ [s])%list.
Proof.
  intros H0 H1 H2. unfold Path.stepSeg.
  apply String.eqb_neq in H0, H1, H2. now rewrite H0, H1, H2.
Qed.

Lemma tracks_closed (r : string) (n : nat) (names : list string) :
  r = Path.joinSegs names ->
  n = String.length (last names EmptyString) ->
  Forall (fun s => Path.isName s = true) names ->
  Path.tracks {| Path.res := r; Path.lastSegmentLength := n;
                 Path.seg := EmptyString; Path.dots := 0 |} names EmptyString.
Proof. intros -> -> H. unfold Path.tracks. now repeat split. Qed.

(** Giving up the last name, on the text: [dropLastSegment] cuts at the
    last slash. *)
Lemma dropLastSegment_names (l : list string) (x : string) :
  Forall (fun s => Path.isName s = true) (l ++ [x])%list ->
  Path.dropLastSegment (Path.joinSegs (l ++ [x])%list)
  = (Path.joinSegs l, String.length (last l EmptyString)).
Proof.
  intros H. apply names_snoc in H as [Hl Hx].
  apply isName_parts in Hx as (_ & Hx & _).
  unfold Path.dropLastSegment.
  destruct l as [|a l'] eqn:El.
  - cbn [app Path.joinSegs]. now rewrite (lastIndexOf_noSlash x Hx).
  - rewrite <- El in *. assert (Hne : l <> []) by (rewrite El; discriminate).
    rewrite (joinSegs_snoc l x Hne), (lastIndexOf_last_slash _ x Hx).
    rewrite take_app_length. f_equal.
    destruct (exists_last Hne) as (l0 & y & E0). rewrite E0 in *.
    rewrite last_last.
    apply names_snoc in Hl as [Hl0 Hy]. apply isName_parts in Hy as (_ & Hy & _).
    destruct l0 as [|b l0'] eqn:E1.
    + cbn [app Path.joinSegs]. now rewrite (lastIndexOf_noSlash y Hy).
    + rewrite <- E1 in *. assert (Hne0 : l0 <> []) by (rewrite E1; discriminate).
      rewrite (joinSegs_snoc l0 y Hne0), (lastIndexOf_last_slash _ y Hy).
      rewrite !length_append. cbn [String.length]. lia.
Qed.

(** One turn of the loop at a separator reads one segment. *)
Lemma onSeparator_tracks (st : Path.nstate) (names : list string) (cur : string) :
  Path.tracks st names cur -> Path.noSlash cur = true ->
  Path.tracks (Path.onSeparator false st) (Path.stepSeg names cur) EmptyString.
Proof.
  intros (Hres & Hlsl & Hseg & Hdots & Hnames) Hcur.
  unfold Path.onSeparator. rewrite Hseg, Hdots.
  destruct cur as [|c cur'] eqn:Ecur.
  { rewrite stepSeg_skip by now left. now apply tracks_closed. }
  rewrite <- Ecur in *.
  destruct (Z.eqb_spec (Path.dotsOf cur) 1) as [D1|D1].
  { apply dotsOf_one in D1. rewrite stepSeg_skip by now right.
    now apply tracks_closed. }
  destruct (Z.eqb_spec (Path.dotsOf cur) 2) as [D2|D2].
  - apply dotsOf_two in D2. rewrite D2, stepSeg_up.
    destruct names as [|a names'] eqn:En.
    + cbn [Path.joinSegs] in Hres. rewrite Hres. cbn.
      apply tracks_closed; [reflexivity | exact Hlsl | constructor].
    + rewrite <- En in *. assert (Hne : names <> []) by (rewrite En; discriminate).
      destruct (exists_last Hne) as (l & x & E). rewrite E in *. clear En Hne a names'.
      rewrite removelast_last. rewrite last_last in Hlsl.
      pose proof (names_snoc l x Hnames) as [Hl Hx].
      pose proof (isName_parts x Hx) as (Hx0 & Hxs & Hx1 & Hx2).
      assert (Cond : (String.length (Path.res st) <? 2)%nat
                     || negb (Path.lastSegmentLength st =? 2)%nat
                     || negb (Path.endsWithDotDot (Path.res st)) = true).
      { destruct (String.length (Path.res st) <? 2)%nat; [reflexivity|].
        destruct (Nat.eqb_spec (Path.lastSegmentLength st) 2) as [L2|]; [|reflexivity].
        cbn [negb orb]. apply negb_true_iff.
        destruct (Path.endsWithDotDot (Path.res st)) eqn:Ed; [|reflexivity].
        exfalso. apply Hx2. rewrite Hlsl in L2.
        destruct l as [|b l'] eqn:El.
        - cbn [app Path.joinSegs] in Hres. rewrite Hres in Ed.
          apply (endsWithDotDot_suffix EmptyString x L2 Ed).
        - rewrite joinSegs_snoc in Hres by discriminate. rewrite Hres in Ed.
          rewrite <- append_assoc in Ed.
          apply (endsWithDotDot_suffix _ x L2 Ed). }
      rewrite Cond.
      destruct (Nat.ltb_spec 2 (String.length (Path.res st))) as [Long|Short].
      * rewrite Hres, (dropLastSegment_names l x Hnames).
        now apply tracks_closed.
      * assert (Hl0 : l = []).
        { destruct l as [|b l']; [reflexivity|]. exfalso.
          rewrite joinSegs_snoc in Hres by discriminate.
          rewrite Hres, !length_append in Short. cbn [String.length] in Short.
          pose proof (length_joinSegs_names (b :: l') Hl ltac:(discriminate)).
          destruct x; [easy | cbn [String.length] in Short; lia]. }
        subst l. cbn [app Path.joinSegs] in Hres.
        assert (Hz : (String.length (Path.res st) =? 0)%nat = false).
        { apply Nat.eqb_neq. rewrite Hres. destruct x; [easy | cbn; lia]. }
        rewrite Hz. cbn [negb]. apply tracks_closed; [reflexivity | reflexivity | constructor].
  - assert (N1 : cur <> ".") by (intros E; apply D1; now apply dotsOf_one).
    assert (N2 : cur <> "..") by (intros E; apply D2; now apply dotsOf_two).
    assert (N0 : cur <> EmptyString) by (rewrite Ecur; discriminate).
    rewrite (stepSeg_name names cur N0 N1 N2).
    assert (Hn : Path.isName cur = true).
    { unfold Path.isName. apply String.eqb_neq in N0, N1, N2.
      now rewrite N0, N1, N2, Hcur. }
    apply tracks_closed.
    + destruct names as [|a names'] eqn:En.
      * cbn [Path.joinSegs] in Hres. rewrite Hres. reflexivity.
      * rewrite <- En in *. assert (Hne : names <> []) by (rewrite En; discriminate).
        pose proof (length_joinSegs_names names Hnames Hne) as Hpos.
        rewrite <- Hres in Hpos. apply Nat.ltb_lt in Hpos. rewrite Hpos.
        now rewrite joinSegs_snoc, Hres.
    + now rewrite last_last.
    + apply Forall_app. split; [exact Hnames | now constructor].
Qed.

Lemma noSlash_snoc (s : string) (c : ascii) :
  Path.noSlash s = true -> Path.isPosixPathSeparator c = false ->
  Path.noSlash (s ++ String c EmptyString) = true.
Proof.
  intros Hs Hc. induction s as [|a s IH]; cbn [append Path.noSlash] in *.
  - now rewrite Hc.
  - apply andb_prop in Hs as [Ha Hs]. now rewrite Ha, IH.
Qed.

(** The loop reads the path segment by segment. *)
Lemma nloop_tracks (p : string) :
  forall st names cur,
    Path.tracks st names cur -> Path.noSlash cur = true ->
    Path.tracks (Path.onSeparator false (Path.nloop false st p))
                (fold_left Path.stepSeg (Path.splitAcc cur p) names) EmptyString.
Proof.
  induction p as [|c p IH]; intros st names cur Ht Hc.
  - cbn [Path.nloop Path.splitAcc fold_left]. now apply onSeparator_tracks.
  - cbn [Path.nloop Path.splitAcc]. unfold Path.nstep.
    destruct (Path.isPosixPathSeparator c) eqn:Ec.
    + cbn [fold_left]. apply IH; [|reflexivity]. now apply onSeparator_tracks.
    + apply IH; [|now apply noSlash_snoc].
      destruct Ht as (Hres & Hlsl & Hseg & Hdots & Hnames).
      unfold Path.tracks. cbn [Path.res Path.lastSegmentLength Path.seg Path.dots].
      rewrite Hseg, Hdots, dotsOf_snoc. now repeat split.
Qed.

(** [normalizeString] below a root: the names that are left when the
    segments of the path are read in turn. *)
Lemma normalizeString_segments (p : string) :
  Path.normalizeString p false = Path.joinSegs (Path.resolveSegs (Path.segments p))
  /\ Forall (fun s => Path.isName s = true) (Path.resolveSegs (Path.segments p)).
Proof.
  assert (T : Path.tracks Path.nstart [] EmptyString).
  { unfold Path.tracks, Path.nstart. cbn. repeat split. constructor. }
  destruct (nloop_tracks p Path.nstart [] EmptyString T eq_refl)
    as (Hres & _ & _ & _ & Hnames).
  split; [exact Hres | exact Hnames].
Qed.

(** *** Segments of joined texts *)

Lemma splitAcc_app (a b : string) :
  forall cur, Path.splitAcc cur (a ++ String "/" b)
              = (Path.splitAcc cur a ++ Path.splitAcc EmptyString b)%list.
Proof.
  induction a as [|c a IH]; intros cur; [reflexivity|].
  cbn [append Path.splitAcc]. destruct (Path.isPosixPathSeparator c).
  - cbn [app]. now rewrite IH.
  - apply IH.
Qed.

Lemma splitAcc_noSlash (x : string) :
  forall cur, Path.noSlash x = true -> Path.splitAcc cur x = [cur ++ x].
Proof.
  induction x as [|c x IH]; intros cur H.
  - cbn. now rewrite append_nil_r.
  - cbn [Path.noSlash] in H. apply andb_prop in H as [Hc Hx].
    apply negb_true_iff in Hc. cbn [Path.splitAcc]. rewrite Hc.
    rewrite IH by exact Hx. now rewrite append_cons_end.
Qed.

Lemma segments_app (a b : string) :
  Path.segments (a ++ "/" ++ b) = (Path.segments a ++ Path.segments b)%list.
Proof. apply splitAcc_app. Qed.

Lemma segments_joinSegs (l : list string) :
  Forall (fun s => Path.isName s = true) l -> l <> [] ->
  Path.segments (Path.joinSegs l) = l.
Proof.
  induction 1 as [|x l Hx Hl IH]; intros Hne; [easy|].
  apply isName_parts in Hx as (_ & Hx & _).
  destruct l as [|y l].
  - cbn [Path.joinSegs]. unfold Path.segments. now rewrite splitAcc_noSlash.
  - change (Path.joinSegs (x :: y :: l)) with (x ++ "/" ++ Path.joinSegs (y :: l)).
    rewrite segments_app, IH by discriminate.
    unfold Path.segments. now rewrite splitAcc_noSlash.
Qed.

Lemma resolve_names (l : list string) :
  Forall (fun s => Path.isName s = true) l ->
  forall acc, fold_left Path.stepSeg l acc = (acc ++ l)%list.
Proof.
  induction 1 as [|x l Hx Hl IH]; intros acc; [now rewrite app_nil_r|].
  apply isName_parts in Hx as (H0 & _ & H1 & H2).
  cbn [fold_left]. rewrite stepSeg_name by assumption.
  rewrite IH, <- app_assoc. reflexivity.
Qed.

Lemma joinSegs_app (a b : list string) :
  a <> [] -> b <> [] ->
  Path.joinSegs (a ++ b)%list = Path.joinSegs a ++ "/" ++ Path.joinSegs b.
Proof.
  intros Ha Hb. induction a as [|x a IH]; [easy|].
  destruct a as [|y a].
  - destruct b as [|z b]; [easy | reflexivity].
  - change (Path.joinSegs ((x :: y :: a) ++ b)%list)
      with (x ++ "/" ++ Path.joinSegs ((y :: a) ++ b)%list).
    rewrite IH by discriminate.
    change (Path.joinSegs (x :: y :: a)) with (x ++ "/" ++ Path.joinSegs (y :: a)).
    now rewrite !append_assoc.
Qed.

Lemma endsWithChar_app (c : ascii) (a b : string) :
  b <> EmptyString -> JS.endsWithChar c (a ++ b) = JS.endsWithChar c b.
Proof.
  intros Hb. induction a as [|x a IH]; [reflexivity|].
  change (String x a ++ b) with (String x (a ++ b)).
  cbn [JS.endsWithChar]. destruct (a ++ b) eqn:E.
  - destruct a; [cbn in E; contradiction | discriminate E].
  - exact IH.
Qed.

Lemma endsWithChar_noSlash (x : string) :
  Path.noSlash x = true -> JS.endsWithChar Path.slash x = false.
Proof.
  induction x as [|c x IH]; intros H; [reflexivity|].
  cbn [Path.noSlash] in H. apply andb_prop in H as [Hc Hx].
  apply negb_true_iff in Hc. cbn [JS.endsWithChar].
  destruct x; [exact Hc | now apply IH].
Qed.

Lemma joinSegs_no_trailing_slash (l : list string) :
  Forall (fun s => Path.isName s = true) l ->
  JS.endsWithChar Path.slash (Path.joinSegs l) = false.
Proof.
  induction 1 as [|x l Hx Hl IH]; [reflexivity|].
  pose proof (isName_parts x Hx) as (_ & Hs & _).
  destruct l as [|y l]; [now apply endsWithChar_noSlash|].
  change (Path.joinSegs (x :: y :: l)) with (x ++ "/" ++ Path.joinSegs (y :: l)).
  rewrite <- append_assoc, endsWithChar_app; [exact IH|].
  intros E. pose proof (length_joinSegs_names (y :: l) Hl ltac:(discriminate)) as P.
  rewrite E in P. cbn in P. lia.
Qed.

(** [path.normalize] of an absolute path: the root, the names that are
    left, and a slash at the end when the path ended with one. *)
Lemma normalize_absolute (q : string) :
  let p := String "/" q in
  let names := Path.resolveSegs (Path.segments p) in
  Path.normalize p
  = match names with
    | [] => "/"
    | _ :: _ =>
        "/" ++ Path.joinSegs names
        ++ (if JS.endsWithChar Path.slash p then "/" else EmptyString)
    end.
Proof.
  intros p names. destruct (normalizeString_segments p) as [Hn Hnames].
  fold names in Hn, Hnames. unfold Path.normalize. subst p. cbv beta iota zeta.
  change (JS.isChar "/" Path.slash) with true. cbn [negb]. rewrite Hn.
  destruct names as [|x l] eqn:E; [reflexivity|].
  pose proof (length_joinSegs_names (x :: l) Hnames ltac:(discriminate)) as P.
  destruct (Path.joinSegs (x :: l)) as [|a j] eqn:J; [cbn in P; lia|].
  destruct (JS.endsWithChar Path.slash (String "/" q)).
  - reflexivity.
  - now rewrite append_nil_r.
Qed.

Lemma stripParents_rooted (s : string) : stripParents (String "/" s) = String "/" s.
Proof. destruct s as [|b [|c s]]; reflexivity. Qed.

Lemma resolveSegs_framed (names tail : list string) :
  Forall (fun s => Path.isName s = true) names ->
  Forall (fun s => Path.isName s = true) tail ->
  Path.resolveSegs ((EmptyString :: names) ++ EmptyString :: tail)%list
  = (names ++ tail)%list.
Proof.
  intros Hn Ht. unfold Path.resolveSegs. rewrite fold_left_app.
  cbn [fold_left]. rewrite stepSeg_skip by now left.
  rewrite (resolve_names names Hn). cbn [app].
  rewrite stepSeg_skip by now left. apply (resolve_names tail Ht).
Qed.

Lemma resolveSegs_rooted (names tail : list string) :
  Forall (fun s => Path.isName s = true) names ->
  Forall (fun s => Path.isName s = true) tail ->
  Path.resolveSegs ((EmptyString :: names) ++ tail)%list = (names ++ tail)%list.
Proof.
  intros Hn Ht. unfold Path.resolveSegs. rewrite fold_left_app.
  cbn [fold_left]. rewrite stepSeg_skip by now left.
  rewrite (resolve_names names Hn). cbn [app]. apply (resolve_names tail Ht).
Qed.

Lemma segments_rooted (names : list string) :
  Forall (fun s => Path.isName s = true) names -> names <> [] ->
  Path.segments ("/" ++ Path.joinSegs names) = EmptyString :: names.
Proof.
  intros Hn Hne.
  change ("/" ++ Path.joinSegs names) with (EmptyString ++ "/" ++ Path.joinSegs names).
  now rewrite segments_app, segments_joinSegs.
Qed.

Lemma join_nonempty (a b : string) :
  a <> EmptyString -> b <> EmptyString ->
  Path.join a b = Path.normalize (a ++ "/" ++ b).
Proof. destruct a, b; easy. Qed.

(** Joining a name to a directory that is written in its normal form. *)
Lemma join_names (names tail : list string) :
  Forall (fun s => Path.isName s = true) names ->
  Forall (fun s => Path.isName s = true) tail ->
  names <> [] -> tail <> [] ->
  Path.join ("/" ++ Path.joinSegs names) (Path.joinSegs tail)
  = "/" ++ Path.joinSegs (names ++ tail)
  /\ Path.join ("/" ++ Path.joinSegs names ++ "/") (Path.joinSegs tail)
     = "/" ++ Path.joinSegs (names ++ tail).
Proof.
  intros Hn Ht Hne Hte.
  assert (Hnt : (names ++ tail)%list <> [])
    by (destruct names; [easy | discriminate]).
  pose proof (length_joinSegs_names tail Ht Hte) as Pt.
  assert (Jne : Path.joinSegs tail <> EmptyString)
    by (intros E; rewrite E in Pt; cbn in Pt; lia).
  assert (Ends : forall pre, JS.endsWithChar Path.slash (pre ++ Path.joinSegs tail) = false).
  { intros pre. rewrite endsWithChar_app by exact Jne.
    now apply joinSegs_no_trailing_slash. }
  assert (Shape : forall q,
             Path.resolveSegs (Path.segments (String "/" q)) = (names ++ tail)%list ->
             JS.endsWithChar Path.slash (String "/" q) = false ->
             Path.normalize (String "/" q) = "/" ++ Path.joinSegs (names ++ tail)).
  { intros q Hr He. pose proof (normalize_absolute q) as N. cbv zeta in N.
    rewrite Hr, He, append_nil_r in N. rewrite N.
    destruct (names ++ tail)%list; [easy | reflexivity]. }
  split.
  - rewrite join_nonempty by (exact Jne || discriminate).
    change (("/" ++ Path.joinSegs names) ++ "/" ++ Path.joinSegs tail)
      with (String "/" (Path.joinSegs names ++ "/" ++ Path.joinSegs tail)).
    apply Shape.
    + change (String "/" (Path.joinSegs names ++ "/" ++ Path.joinSegs tail))
        with (("/" ++ Path.joinSegs names) ++ "/" ++ Path.joinSegs tail).
      rewrite segments_app, segments_rooted, segments_joinSegs by assumption.
      now apply resolveSegs_rooted.
    + change (String "/" (Path.joinSegs names ++ "/" ++ Path.joinSegs tail))
        with ("/" ++ (Path.joinSegs names ++ ("/" ++ Path.joinSegs tail))).
      rewrite <- !append_assoc. apply Ends.
  - rewrite join_nonempty by (exact Jne || discriminate).
    change (("/" ++ Path.joinSegs names ++ "/") ++ "/" ++ Path.joinSegs tail)
      with (String "/" ((Path.joinSegs names ++ "/") ++ "/" ++ Path.joinSegs tail)).
    apply Shape.
    + change (String "/" ((Path.joinSegs names ++ "/") ++ "/" ++ Path.joinSegs tail))
        with ((("/" ++ Path.joinSegs names) ++ "/" ++ EmptyString)
              ++ "/" ++ Path.joinSegs tail).
      rewrite !segments_app, segments_rooted, segments_joinSegs by assumption.
      change (Path.segments EmptyString) with [EmptyString].
      rewrite <- app_assoc. now apply resolveSegs_framed.
    + change (String "/" ((Path.joinSegs names ++ "/") ++ "/" ++ Path.joinSegs tail))
        with ("/" ++ ((Path.joinSegs names ++ "/") ++ ("/" ++ Path.joinSegs tail))).
      rewrite <- !append_assoc. apply Ends.
Qed.

(** ** The static file resolver: targets that start with a slash *)

Lemma splitHead_rooted (u : string) :
  JS.startsWith "/" u = true ->
  exists q, u = String "/" q /\ JS.splitHead "?" u = String "/" (JS.splitHead "?" q).
Proof.
  destruct u as [|c q]; [discriminate|]. cbn [JS.startsWith].
  rewrite andb_true_r. unfold JS.isChar. intros H.
  apply Ascii.eqb_eq in H. subst c. now exists q.
Qed.

Lemma resolvePath_rooted (u : string) :
  JS.startsWith "/" u = true ->
  let p := JS.splitHead "?" u in
  let names := Path.resolveSegs (Path.segments p) in
  let index :=
    JS.endsWithChar Path.slash p
    || match names with [] => true | _ :: _ => false end in
  resolvePath u
  = Path.joinSegs (names ++ (if index then ["index.html"] else []))
  /\ Forall (fun s => Path.isName s = true)
            (names ++ (if index then ["index.html"] else [])).
Proof.
  intros Hu p names index.
  destruct (splitHead_rooted u Hu) as (q0 & _ & Hp). fold p in Hp.
  set (q := JS.splitHead "?" q0) in *.
  destruct (normalizeString_segments p) as [_ Hnames]. fold names in Hnames.
  pose proof (normalize_absolute q) as N. cbv zeta in N.
  rewrite <- Hp in N. fold names in N.
  assert (Hidx : Forall (fun s => Path.isName s = true) ["index.html"])
    by (constructor; [reflexivity | constructor]).
  split.
  2:{ apply Forall_app. split; [exact Hnames|]. destruct index; [exact Hidx | constructor]. }
  unfold resolvePath. cbv zeta. fold p. rewrite N.
  destruct names as [|x l] eqn:En.
  - subst index. rewrite !orb_true_r. reflexivity.
  - rewrite <- En in *. assert (Hne : names <> []) by (rewrite En; discriminate).
    subst index. rewrite orb_false_r.
    pose proof (length_joinSegs_names names Hnames Hne) as P.
    assert (Jne : Path.joinSegs names <> EmptyString)
      by (intros E; rewrite E in P; cbn in P; lia).
    destruct (JS.endsWithChar Path.slash p) eqn:Et; cbv iota.
    + change ("/" ++ Path.joinSegs names ++ "/")
        with (String "/" (Path.joinSegs names ++ "/")).
      rewrite stripParents_rooted.
      assert (T : JS.endsWithChar Path.slash (String "/" (Path.joinSegs names ++ "/")) = true).
      { change (String "/" (Path.joinSegs names ++ "/"))
          with (("/" ++ Path.joinSegs names) ++ "/").
        rewrite endsWithChar_app by discriminate. reflexivity. }
      rewrite T, orb_true_r.
      change (String "/" (Path.joinSegs names ++ "/"))
        with ("/" ++ Path.joinSegs names ++ "/").
      destruct (join_names names ["index.html"] Hnames Hidx Hne ltac:(discriminate))
        as [_ J].
      change (Path.joinSegs ["index.html"]) with "index.html" in J.
      rewrite J. reflexivity.
    + rewrite append_nil_r.
      change ("/" ++ Path.joinSegs names) with (String "/" (Path.joinSegs names)).
      rewrite stripParents_rooted.
      assert (T1 : String.eqb (String "/" (Path.joinSegs names)) "/" = false).
      { apply String.eqb_neq. intros E. injection E as E. now apply Jne. }
      assert (T2 : JS.endsWithChar Path.slash (String "/" (Path.joinSegs names)) = false).
      { change (String "/" (Path.joinSegs names)) with ("/" ++ Path.joinSegs names).
        rewrite endsWithChar_app by exact Jne.
        now apply joinSegs_no_trailing_slash. }
      rewrite T1, T2. cbn [orb stripLeadingSlash].
      change (JS.isChar "/" Path.slash) with true. cbv iota.
      now rewrite app_nil_r.
Qed.

(** X2.  A request target that starts with a slash is resolved to names: the
    names that are left when the segments of its path (the target up to
    the question mark) are read in turn, empty segments and single dots
    skipped and two dots giving up the name before them, never more than
    there are; then index.html when the path ends with a slash or no name
    is left.  No segment of the resolved path is empty, a dot or two
    dots. *)
Theorem slash_target_resolves_to_names (u : string) :
  JS.startsWith "/" u = true ->
  let p := JS.splitHead "?" u in
  let names := Path.resolveSegs (Path.segments p) in
  let index :=
    JS.endsWithChar Path.slash p
    || match names with [] => true | _ :: _ => false end in
  resolvePath u
  = Path.joinSegs (names ++ (if index then ["index.html"] else []))
  /\ Forall (fun s => Path.isName s = true)
            (names ++ (if index then ["index.html"] else [])).
Proof. exact (resolvePath_rooted u). Qed.

Lemma slash_target_resolves_to_names_witness :
  resolvePath "/a/./b/../../../c//d/?x=/../" = "c/d/index.html".
Proof.
  destruct (slash_target_resolves_to_names "/a/./b/../../../c//d/?x=/../" eq_refl)
    as [H _].
  exact H.
Defined.

(** The static root is written in its normal form when the directory of
    the server is an absolute path. *)
Lemma staticDir_names (env : Env) :
  JS.startsWith "/" (dirname env) = true ->
  exists root,
    staticDir (config env) = "/" ++ Path.joinSegs root
    /\ Forall (fun s => Path.isName s = true) root /\ root <> [].
Proof.
  intros Hd. destruct (dirname env) as [|c d] eqn:E; [discriminate|].
  cbn [JS.startsWith] in Hd. rewrite andb_true_r in Hd.
  apply Ascii.eqb_eq in Hd. subst c.
  unfold config. cbn [staticDir]. rewrite E.
  rewrite join_nonempty by discriminate.
  change (String "/" d ++ "/" ++ "src") with (String "/" (d ++ "/" ++ "src")).
  pose proof (normalize_absolute (d ++ "/" ++ "src")) as N. cbv zeta in N.
  destruct (normalizeString_segments (String "/" (d ++ "/" ++ "src"))) as [_ Hn].
  assert (S0 : Path.resolveSegs (Path.segments (String "/" (d ++ "/" ++ "src")))
               = (Path.resolveSegs (Path.segments (String "/" d)) ++ ["src"])%list).
  { change (String "/" (d ++ "/" ++ "src")) with (String "/" d ++ "/" ++ "src").
    rewrite segments_app. unfold Path.resolveSegs. rewrite fold_left_app.
    reflexivity. }
  assert (T : JS.endsWithChar Path.slash (String "/" (d ++ "/" ++ "src")) = false).
  { change (String "/" (d ++ "/" ++ "src")) with ("/" ++ (d ++ ("/" ++ "src"))).
    rewrite <- !append_assoc. rewrite endsWithChar_app by discriminate. reflexivity. }
  rewrite S0 in N, Hn. rewrite T, append_nil_r in N.
  exists (Path.resolveSegs (Path.segments (String "/" d)) ++ ["src"])%list.
  split; [|split; [exact Hn|]].
  - rewrite N. destruct (Path.resolveSegs (Path.segments (String "/" d)));
      reflexivity.
  - destruct (Path.resolveSegs (Path.segments (String "/" d))); discriminate.
Qed.

(** X1.  No traversal from a target that starts with a slash: the file read is
    the static root, a slash and the resolved path, and so lies below the
    static root, whatever dots the target holds. *)
Theorem slash_target_stays_below_root (env : Env) (u : string) :
  JS.startsWith "/" (dirname env) = true ->
  JS.startsWith "/" u = true ->
  fullPath env (resolvePath u) = staticDir (config env) ++ "/" ++ resolvePath u
  /\ confined (staticDir (config env)) (fullPath env (resolvePath u)) = true.
Proof.
  intros Hd Hu.
  destruct (staticDir_names env Hd) as (root & Hroot & Hrn & Hrne).
  destruct (resolvePath_rooted u Hu) as [Hres Hall].
  cbv zeta in Hres, Hall.
  set (names := (Path.resolveSegs (Path.segments (JS.splitHead "?" u)) ++
                 (if JS.endsWithChar Path.slash (JS.splitHead "?" u)
                     || match Path.resolveSegs (Path.segments (JS.splitHead "?" u)) with
                        | [] => true
                        | _ :: _ => false
                        end
                  then ["index.html"] else []))%list) in *.
  assert (Hne : names <> []).
  { subst names. destruct (Path.resolveSegs (Path.segments (JS.splitHead "?" u))).
    - rewrite orb_true_r. discriminate.
    - discriminate. }
  assert (F : fullPath env (resolvePath u)
              = staticDir (config env) ++ "/" ++ resolvePath u).
  { unfold fullPath. rewrite Hroot, Hres.
    destruct (join_names root names Hrn Hall Hrne Hne) as [J _].
    rewrite J, joinSegs_app by assumption. now rewrite append_assoc. }
  split; [exact F|].
  unfold confined. rewrite F, <- append_assoc.
  change ((staticDir (config env) ++ "/") ++ resolvePath u)
    with ((staticDir (config env) ++ "/") ++ resolvePath u).
  rewrite startsWith_refl_app. apply orb_true_r.
Qed.

Lemma slash_target_stays_below_root_witness :
  fullPath sampleEnv (resolvePath "/../../etc/passwd")
  = "/srv/site/src" ++ "/" ++ "etc/passwd"
  /\ confined (staticDir (config sampleEnv))
              (fullPath sampleEnv (resolvePath "/../../etc/passwd")) = true.
Proof.
  exact (slash_target_stays_below_root sampleEnv "/../../etc/passwd" eq_refl eq_refl).
Defined.

(** ** The port of the push channel, in general *)

(** X17.  The port the push channel is given is the number 3001 only when PORT
    is not set (or empty); with PORT set it is the text of PORT followed
    by the character 1. *)
Theorem push_port_is_text_plus_one (env : Env) :
  wsPort (config env)
  = match PORT env with
    | Some (String c s) => JS.Str (String c s ++ "1")
    | _ => JS.Num 3001
    end.
Proof.
  destruct (PORT env) as [[|c s]|] eqn:E.
  - unfold wsPort, config, JS.orElse. cbn [port]. now rewrite E.
  - now apply wsPort_from_text.
  - now apply wsPort_default.
Qed.

(** ** [path.normalize] of a path that is not below a root *)

Lemma isSeg_parts (s : string) :
  Path.isSeg s = true -> s <> EmptyString /\ Path.noSlash s = true /\ s <> ".".
Proof.
  unfold Path.isSeg. intros H. split_andb.
  repeat match goal with
         | H : negb _ = true |- _ => apply negb_true_iff, String.eqb_neq in H
         end.
  now repeat split.
Qed.

Lemma isName_isSeg (s : string) : Path.isName s = true -> Path.isSeg s = true.
Proof.
  unfold Path.isName, Path.isSeg. intros H. split_andb.
  repeat match goal with H : _ = true |- _ => rewrite H; clear H end. reflexivity.
Qed.

Lemma names_are_segs (l : list string) :
  Forall (fun s => Path.isName s = true) l -> Forall (fun s => Path.isSeg s = true) l.
Proof. apply Forall_impl. exact isName_isSeg. Qed.

Lemma segs_snoc (l : list string) (x : string) :
  Forall (fun s => Path.isSeg s = true) (l ++ [x])%list ->
  Forall (fun s => Path.isSeg s = true) l /\ Path.isSeg x = true.
Proof.
  intros H. apply Forall_app in H as [H1 H2]. split; [exact H1|].
  now inversion H2.
Qed.

Lemma length_joinSegs_segs (l : list string) :
  Forall (fun s => Path.isSeg s = true) l -> l <> [] ->
  0 < String.length (Path.joinSegs l).
Proof.
  intros H Hne. destruct l as [|a l]; [easy|].
  inversion H as [|? ? Ha _]; subst. apply isSeg_parts in Ha as (Ha & _).
  destruct a as [|c a]; [easy|]. destruct l; cbn; lia.
Qed.

Lemma dropLastSegment_segs (l : list string) (x : string) :
  Forall (fun s => Path.isSeg s = true) (l ++ [x])%list ->
  Path.dropLastSegment (Path.joinSegs (l ++ [x])%list)
  = (Path.joinSegs l, String.length (last l EmptyString)).
Proof.
  intros H. apply segs_snoc in H as [Hl Hx].
  apply isSeg_parts in Hx as (_ & Hx & _).
  unfold Path.dropLastSegment.
  destruct l as [|a l'] eqn:El.
  - cbn [app Path.joinSegs]. now rewrite (lastIndexOf_noSlash x Hx).
  - rewrite <- El in *. assert (Hne : l <> []) by (rewrite El; discriminate).
    rewrite (joinSegs_snoc l x Hne), (lastIndexOf_last_slash _ x Hx).
    rewrite take_app_length. f_equal.
    destruct (exists_last Hne) as (l0 & y & E0). rewrite E0 in *.
    rewrite last_last.
    apply segs_snoc in Hl as [Hl0 Hy]. apply isSeg_parts in Hy as (_ & Hy & _).
    destruct l0 as [|b l0'] eqn:E1.
    + cbn [app Path.joinSegs]. now rewrite (lastIndexOf_noSlash y Hy).
    + rewrite <- E1 in *. assert (Hne0 : l0 <> []) by (rewrite E1; discriminate).
      rewrite (joinSegs_snoc l0 y Hne0), (lastIndexOf_last_slash _ y Hy).
      rewrite !length_append. cbn [String.length]. lia.
Qed.

Lemma endsWithDotDot_up (pre : string) : Path.endsWithDotDot (pre ++ "..") = true.
Proof.
  unfold Path.endsWithDotDot. rewrite length_append. cbn [String.length].
  replace (String.length pre + 2 - 1) with (String.length pre + 1) by lia.
  replace (String.length pre + 2 - 2) with (String.length pre + 0) by lia.
  now rewrite !get_app_right.
Qed.

Lemma tracksUp_closed (r : string) (n : nat) (names : list string) :
  r = Path.joinSegs names ->
  n = String.length (last names EmptyString) ->
  Forall (fun s => Path.isSeg s = true) names ->
  Path.tracksUp {| Path.res := r; Path.lastSegmentLength := n;
                   Path.seg := EmptyString; Path.dots := 0 |} names EmptyString.
Proof. intros -> -> H. unfold Path.tracksUp. now repeat split. Qed.

Lemma stepSegUp_skip (names : list string) (s : string) :
  s = EmptyString \/ s = "." -> Path.stepSegUp names s = names.
Proof. intros [->| ->]; reflexivity. Qed.

Lemma stepSegUp_name (names : list string) (s : string) :
  s <> EmptyString -> s <> "." -> s <> ".." ->
  Path.stepSegUp names s = (names ++ [s])%list.
Proof.
  intros H0 H1 H2. unfold Path.stepSegUp.
  apply String.eqb_neq in H0, H1, H2. now rewrite H0, H1, H2.
Qed.

Lemma stepSegUp_up (l : list string) (x : string) :
  Path.stepSegUp (l ++ [x])%list ".."
  = if String.eqb x ".." then ((l ++ [x]) ++ [".."])%list else l.
Proof.
  unfold Path.stepSegUp. cbn [String.eqb Ascii.eqb orb].
  change (String.eqb ".." EmptyString || String.eqb ".." ".") with false.
  change (String.eqb ".." "..") with true. cbv iota.
  rewrite last_last, removelast_last.
  destruct (l ++ [x])%list eqn:E; [destruct l; discriminate E | reflexivity].
Qed.

(** One turn of the loop at a separator, above a root allowed. *)
Lemma onSeparator_tracksUp (st : Path.nstate) (names : list string) (cur : string) :
  Path.tracksUp st names cur -> Path.noSlash cur = true ->
  Path.tracksUp (Path.onSeparator true st) (Path.stepSegUp names cur) EmptyString.
Proof.
  intros (Hres & Hlsl & Hseg & Hdots & Hnames) Hcur.
  unfold Path.onSeparator. rewrite Hseg, Hdots.
  destruct cur as [|c cur'] eqn:Ecur.
  { rewrite stepSegUp_skip by now left. now apply tracksUp_closed. }
  rewrite <- Ecur in *.
  destruct (Z.eqb_spec (Path.dotsOf cur) 1) as [D1|D1].
  { apply dotsOf_one in D1. rewrite stepSegUp_skip by now right.
    now apply tracksUp_closed. }
  destruct (Z.eqb_spec (Path.dotsOf cur) 2) as [D2|D2].
  - apply dotsOf_two in D2. rewrite D2.
    destruct names as [|a names'] eqn:En.
    + cbn [Path.joinSegs] in Hres. rewrite Hres. cbn.
      apply tracksUp_closed; [reflexivity | reflexivity |].
      constructor; [reflexivity | constructor].
    + rewrite <- En in *. assert (Hne : names <> []) by (rewrite En; discriminate).
      destruct (exists_last Hne) as (l & x & E). rewrite E in *. clear En Hne a names'.
      rewrite stepSegUp_up. rewrite last_last in Hlsl.
      pose proof (segs_snoc l x Hnames) as [Hl Hx].
      pose proof (isSeg_parts x Hx) as (Hx0 & Hxs & Hx1).
      pose proof (length_joinSegs_segs (l ++ [x])%list Hnames
                    ltac:(destruct l; discriminate)) as Hpos.
      rewrite <- Hres in Hpos.
      destruct (String.eqb_spec x "..") as [Eup|Nup].
      * subst x.
        assert (Hend : Path.endsWithDotDot (Path.res st) = true).
        { rewrite Hres. destruct l as [|b l'].
          - apply (endsWithDotDot_up EmptyString).
          - rewrite joinSegs_snoc by discriminate. rewrite <- append_assoc.
            apply endsWithDotDot_up. }
        assert (Hlen : (String.length (Path.res st) <? 2)%nat = false).
        { apply Nat.ltb_ge. rewrite Hres. destruct l as [|b l'].
          - cbn. lia.
          - rewrite joinSegs_snoc by discriminate. rewrite !length_append. cbn. lia. }
        rewrite Hlen, Hlsl, Hend. cbn [String.length Nat.eqb negb orb].
        apply Nat.ltb_lt in Hpos. rewrite Hpos.
        apply tracksUp_closed.
        -- rewrite joinSegs_snoc by (destruct l; discriminate). now rewrite Hres.
        -- now rewrite last_last.
        -- apply Forall_app. split; [exact Hnames|].
           constructor; [reflexivity | constructor].
      * assert (Cond : (String.length (Path.res st) <? 2)%nat
                       || negb (Path.lastSegmentLength st =? 2)%nat
                       || negb (Path.endsWithDotDot (Path.res st)) = true).
        { destruct (String.length (Path.res st) <? 2)%nat; [reflexivity|].
          destruct (Nat.eqb_spec (Path.lastSegmentLength st) 2) as [L2|]; [|reflexivity].
          cbn [negb orb]. apply negb_true_iff.
          destruct (Path.endsWithDotDot (Path.res st)) eqn:Ed; [|reflexivity].
          exfalso. apply Nup. rewrite Hlsl in L2.
          destruct l as [|b l'] eqn:El.
          - cbn [app Path.joinSegs] in Hres. rewrite Hres in Ed.
            apply (endsWithDotDot_suffix EmptyString x L2 Ed).
          - rewrite joinSegs_snoc in Hres by discriminate. rewrite Hres in Ed.
            rewrite <- append_assoc in Ed.
            apply (endsWithDotDot_suffix _ x L2 Ed). }
        rewrite Cond.
        destruct (Nat.ltb_spec 2 (String.length (Path.res st))) as [Long|Short].
        -- rewrite Hres, (dropLastSegment_segs l x Hnames).
           now apply tracksUp_closed.
        -- assert (Hl0 : l = []).
           { destruct l as [|b l']; [reflexivity|]. exfalso.
             rewrite joinSegs_snoc in Hres by discriminate.
             rewrite Hres, !length_append in Short. cbn [String.length] in Short.
             pose proof (length_joinSegs_segs (b :: l') Hl ltac:(discriminate)).
             destruct x; [easy | cbn [String.length] in Short; lia]. }
           subst l.
           assert (Hz : (String.length (Path.res st) =? 0)%nat = false)
             by (apply Nat.eqb_neq; lia).
           rewrite Hz. cbn [negb].
           apply tracksUp_closed; [reflexivity | reflexivity | constructor].
  - assert (N1 : cur <> ".") by (intros E; apply D1; now apply dotsOf_one).
    assert (N2 : cur <> "..") by (intros E; apply D2; now apply dotsOf_two).
    assert (N0 : cur <> EmptyString) by (rewrite Ecur; discriminate).
    rewrite (stepSegUp_name names cur N0 N1 N2).
    assert (Hn : Path.isSeg cur = true).
    { unfold Path.isSeg. apply String.eqb_neq in N0, N1.
      now rewrite N0, N1, Hcur. }
    apply tracksUp_closed.
    + destruct names as [|a names'] eqn:En.
      * cbn [Path.joinSegs] in Hres. rewrite Hres. reflexivity.
      * rewrite <- En in *. assert (Hne : names <> []) by (rewrite En; discriminate).
        pose proof (length_joinSegs_segs names Hnames Hne) as Hpos.
        rewrite <- Hres in Hpos. apply Nat.ltb_lt in Hpos. rewrite Hpos.
        now rewrite joinSegs_snoc, Hres.
    + now rewrite last_last.
    + apply Forall_app. split; [exact Hnames | now constructor].
Qed.

Lemma nloop_tracksUp (p : string) :
  forall st names cur,
    Path.tracksUp st names cur -> Path.noSlash cur = true ->
    Path.tracksUp (Path.onSeparator true (Path.nloop true st p))
                  (fold_left Path.stepSegUp (Path.splitAcc cur p) names) EmptyString.
Proof.
  induction p as [|c p IH]; intros st names cur Ht Hc.
  - cbn [Path.nloop Path.splitAcc fold_left]. now apply onSeparator_tracksUp.
  - cbn [Path.nloop Path.splitAcc]. unfold Path.nstep.
    destruct (Path.isPosixPathSeparator c) eqn:Ec.
    + cbn [fold_left]. apply IH; [|reflexivity]. now apply onSeparator_tracksUp.
    + apply IH; [|now apply noSlash_snoc].
      destruct Ht as (Hres & Hlsl & Hseg & Hdots & Hnames).
      unfold Path.tracksUp. cbn [Path.res Path.lastSegmentLength Path.seg Path.dots].
      rewrite Hseg, Hdots, dotsOf_snoc. now repeat split.
Qed.

Lemma normalizeString_segments_up (p : string) :
  Path.normalizeString p true = Path.joinSegs (Path.resolveSegsUp (Path.segments p))
  /\ Forall (fun s => Path.isSeg s = true) (Path.resolveSegsUp (Path.segments p)).
Proof.
  assert (T : Path.tracksUp Path.nstart [] EmptyString).
  { unfold Path.tracksUp, Path.nstart. cbn. repeat split. constructor. }
  destruct (nloop_tracksUp p Path.nstart [] EmptyString T eq_refl)
    as (Hres & _ & _ & _ & Hnames).
  split; [exact Hres | exact Hnames].
Qed.

(** *** Segments and two dots *)

Lemma splitAcc_cur (s : string) :
  forall cur,
    Path.splitAcc cur s
    = match Path.splitAcc EmptyString s with
      | f :: tl => (cur ++ f) :: tl
      | [] => [cur]
      end.
Proof.
  induction s as [|c s IH]; intros cur.
  - cbn. now rewrite append_nil_r.
  - cbn [Path.splitAcc]. destruct (Path.isPosixPathSeparator c).
    + now rewrite append_nil_r.
    + rewrite (IH (cur ++ String c EmptyString)), (IH (EmptyString ++ String c EmptyString)).
      destruct (Path.splitAcc EmptyString s); [reflexivity|].
      now rewrite append_cons_end.
Qed.

Lemma segments_cons_slash (s : string) :
  Path.segments (String "/" s) = EmptyString :: Path.segments s.
Proof. reflexivity. Qed.

Lemma segments_cons_other (c : ascii) (s : string) :
  Path.isPosixPathSeparator c = false ->
  Path.segments (String c s)
  = match Path.segments s with
    | f :: tl => String c f :: tl
    | [] => [String c EmptyString]
    end.
Proof.
  intros Hc. unfold Path.segments. cbn [Path.splitAcc]. rewrite Hc.
  now rewrite splitAcc_cur.
Qed.

Lemma segments_not_nil (s : string) : Path.segments s <> [].
Proof.
  unfold Path.segments. generalize EmptyString.
  induction s as [|c s IH]; intros cur; cbn [Path.splitAcc]; [discriminate|].
  destruct (Path.isPosixPathSeparator c); [discriminate | apply IH].
Qed.

Lemma noUp_app (a b : list string) : Path.noUp (a ++ b) = Path.noUp a && Path.noUp b.
Proof. unfold Path.noUp. apply forallb_app. Qed.

Lemma noUp_upsFirst (l : list string) : Path.noUp l = true -> Path.upsFirst l = true.
Proof.
  destruct l as [|s r]; [reflexivity|]. unfold Path.noUp. cbn [forallb Path.upsFirst].
  intros H. apply andb_prop in H as [Hs Hr]. apply negb_true_iff in Hs.
  now rewrite Hs.
Qed.

Lemma upsFirst_snoc (l : list string) (s : string) :
  Path.upsFirst l = true -> s <> ".." -> Path.upsFirst (l ++ [s]) = true.
Proof.
  intros H Hs. apply String.eqb_neq in Hs.
  induction l as [|a l IH]; cbn [app Path.upsFirst] in *.
  - rewrite Hs. reflexivity.
  - destruct (String.eqb a ".."); [now apply IH|].
    rewrite noUp_app, H. unfold Path.noUp. cbn. now rewrite Hs.
Qed.

Lemma upsFirst_removelast (l : list string) :
  Path.upsFirst l = true -> Path.upsFirst (removelast l) = true.
Proof.
  induction l as [|a l IH]; [easy|]. intros H.
  destruct l as [|b l]; [reflexivity|].
  change (removelast (a :: b :: l)) with (a :: removelast (b :: l)).
  cbn [Path.upsFirst] in H |- *. destruct (String.eqb a "..").
  - now apply IH.
  - clear IH. revert H. generalize (b :: l). clear. intros l.
    induction l as [|x l IH]; [easy|]. unfold Path.noUp in *. cbn [forallb].
    intros H. apply andb_prop in H as [Hx Hl].
    destruct l as [|y l]; [reflexivity|].
    change (removelast (x :: y :: l)) with (x :: removelast (y :: l)).
    cbn [forallb]. rewrite Hx. now apply IH.
Qed.

(** A list whose two dots stand at its head and which ends with two dots
    holds nothing else. *)
Lemma upsFirst_all_ups (l : list string) :
  Path.upsFirst l = true -> l <> [] -> last l EmptyString = ".." ->
  Path.upsFirst (l ++ [".."]) = true.
Proof.
  induction l as [|a l IH]; [easy|]. intros H _ Hl.
  cbn [app Path.upsFirst] in *. destruct (String.eqb a "..") eqn:Ea.
  - destruct l as [|b l]; [reflexivity|]. apply IH; [exact H | discriminate | exact Hl].
  - exfalso. destruct l as [|b l].
    + cbn in Hl. subst a. discriminate Ea.
    + assert (In ".." (b :: l)).
      { rewrite <- Hl. change (last (a :: b :: l) EmptyString)
                         with (last (b :: l) EmptyString).
        clear. generalize b. induction l as [|x l IH]; intros b0; [now left|].
        right. apply IH. }
      unfold Path.noUp in H. rewrite forallb_forall in H.
      specialize (H ".." H0). discriminate H.
Qed.

Lemma stepSegUp_upsFirst (names : list string) (s : string) :
  Path.upsFirst names = true -> Path.upsFirst (Path.stepSegUp names s) = true.
Proof.
  intros H. unfold Path.stepSegUp.
  destruct (String.eqb s EmptyString || String.eqb s "."); [exact H|].
  destruct (String.eqb_spec s "..") as [->|Hs].
  - destruct names as [|a l] eqn:E; [reflexivity|]. rewrite <- E in *.
    destruct (String.eqb_spec (last names EmptyString) "..") as [Hl|_].
    + apply upsFirst_all_ups; [exact H | rewrite E; discriminate | exact Hl].
    + now apply upsFirst_removelast.
  - now apply upsFirst_snoc.
Qed.

Lemma resolveSegsUp_upsFirst (l : list string) :
  Path.upsFirst (Path.resolveSegsUp l) = true.
Proof.
  unfold Path.resolveSegsUp.
  assert (G : forall acc, Path.upsFirst acc = true ->
                          Path.upsFirst (fold_left Path.stepSegUp l acc) = true).
  { induction l as [|s l IH]; intros acc H; [exact H|].
    cbn [fold_left]. apply IH. now apply stepSegUp_upsFirst. }
  now apply G.
Qed.

Lemma stepSegUp_noUp (names : list string) (s : string) :
  Path.noUp names = true -> s <> ".." -> Path.noUp (Path.stepSegUp names s) = true.
Proof.
  intros H Hs. unfold Path.stepSegUp. apply String.eqb_neq in Hs. rewrite Hs.
  destruct (String.eqb s EmptyString || String.eqb s "."); [exact H|].
  rewrite noUp_app, H. unfold Path.noUp. cbn. now rewrite Hs.
Qed.

Lemma resolveSegsUp_noUp (l : list string) :
  Path.noUp l = true -> Path.noUp (Path.resolveSegsUp l) = true.
Proof.
  unfold Path.resolveSegsUp.
  assert (G : forall acc, Path.noUp acc = true -> Path.noUp l = true ->
                          Path.noUp (fold_left Path.stepSegUp l acc) = true).
  { induction l as [|s l IH]; intros acc H Hl; [exact H|].
    unfold Path.noUp in Hl. cbn [forallb] in Hl. apply andb_prop in Hl as [Hs Hl].
    apply negb_true_iff, String.eqb_neq in Hs.
    cbn [fold_left]. apply IH; [now apply stepSegUp_noUp | exact Hl]. }
  now apply G.
Qed.

Lemma names_noUp (l : list string) :
  Forall (fun s => Path.isName s = true) l -> Path.noUp l = true.
Proof.
  induction 1 as [|x l Hx Hl IH]; [reflexivity|].
  unfold Path.noUp in *. cbn [forallb]. rewrite IH.
  apply isName_parts in Hx as (_ & _ & _ & Hx). apply String.eqb_neq in Hx.
  now rewrite Hx.
Qed.

Lemma segments_joinSegs_segs (l : list string) :
  Forall (fun s => Path.isSeg s = true) l -> l <> [] ->
  Path.segments (Path.joinSegs l) = l.
Proof.
  induction 1 as [|x l Hx Hl IH]; intros Hne; [easy|].
  apply isSeg_parts in Hx as (_ & Hx & _).
  destruct l as [|y l].
  - cbn [Path.joinSegs]. unfold Path.segments. now rewrite splitAcc_noSlash.
  - change (Path.joinSegs (x :: y :: l)) with (x ++ "/" ++ Path.joinSegs (y :: l)).
    rewrite segments_app, IH by discriminate.
    unfold Path.segments. now rewrite splitAcc_noSlash.
Qed.

Lemma normalize_relative (c : ascii) (q : string) :
  JS.isChar c Path.slash = false ->
  let p := String c q in
  let names := Path.resolveSegsUp (Path.segments p) in
  Path.normalize p
  = match names with
    | [] => if JS.endsWithChar Path.slash p then "./" else "."
    | _ :: _ =>
        Path.joinSegs names
        ++ (if JS.endsWithChar Path.slash p then "/" else EmptyString)
    end.
Proof.
  intros Hc p names. destruct (normalizeString_segments_up p) as [Hn Hnames].
  fold names in Hn, Hnames. unfold Path.normalize. subst p. cbv beta iota zeta.
  rewrite Hc. cbn [negb]. rewrite Hn.
  destruct names as [|x l] eqn:E; [reflexivity|].
  pose proof (length_joinSegs_segs (x :: l) Hnames ltac:(discriminate)) as P.
  destruct (Path.joinSegs (x :: l)) as [|a j] eqn:J; [cbn in P; lia|].
  destruct (JS.endsWithChar Path.slash (String c q)).
  - reflexivity.
  - now rewrite append_nil_r.
Qed.

Lemma segments_with_tail (names : list string) (b : bool) :
  Forall (fun s => Path.isSeg s = true) names -> names <> [] ->
  Path.segments (Path.joinSegs names ++ (if b then "/" else EmptyString))
  = (names ++ (if b then [EmptyString] else []))%list.
Proof.
  intros H Hne. destruct b.
  - change (Path.joinSegs names ++ "/") with (Path.joinSegs names ++ "/" ++ EmptyString).
    rewrite segments_app, segments_joinSegs_segs by assumption. reflexivity.
  - rewrite append_nil_r, app_nil_r. now apply segments_joinSegs_segs.
Qed.

Lemma noUp_tail (names : list string) (b : bool) :
  Path.noUp (names ++ (if b then [EmptyString] else [])) = Path.noUp names.
Proof. rewrite noUp_app. destruct b; cbn; now rewrite andb_true_r. Qed.

Lemma upsFirst_tail (names : list string) (b : bool) :
  Path.upsFirst names = true ->
  Path.upsFirst (names ++ (if b then [EmptyString] else [])) = true.
Proof.
  intros H. destruct b; [|now rewrite app_nil_r].
  apply upsFirst_snoc; [exact H | discriminate].
Qed.

(** The segments of a normalized path: two dots only at its head, and
    none at all when the path is absolute or held none. *)
Lemma normalize_segments (p : string) :
  Path.upsFirst (Path.segments (Path.normalize p)) = true
  /\ (Path.noUp (Path.segments p) = true ->
      Path.noUp (Path.segments (Path.normalize p)) = true).
Proof.
  destruct p as [|c q]; [now split|].
  destruct (JS.isChar c Path.slash) eqn:Hc.
  - apply Ascii.eqb_eq in Hc. unfold Path.slash in Hc. subst c.
    pose proof (normalize_absolute q) as N. cbv zeta in N. rewrite N.
    destruct (normalizeString_segments (String "/" q)) as [_ Hnames].
    assert (G : Path.noUp
                  (Path.segments
                     match Path.resolveSegs (Path.segments (String "/" q)) with
                     | [] => "/"
                     | _ :: _ =>
                         "/" ++ Path.joinSegs (Path.resolveSegs (Path.segments (String "/" q)))
                         ++ (if JS.endsWithChar Path.slash (String "/" q)
                             then "/" else EmptyString)
                     end) = true).
    { destruct (Path.resolveSegs (Path.segments (String "/" q))) as [|x l] eqn:E;
        [reflexivity|].
      change ("/" ++ Path.joinSegs (x :: l)
              ++ (if JS.endsWithChar Path.slash (String "/" q) then "/" else EmptyString))
        with (String "/" (Path.joinSegs (x :: l)
              ++ (if JS.endsWithChar Path.slash (String "/" q) then "/" else EmptyString))).
      rewrite segments_cons_slash, segments_with_tail
        by (try apply names_are_segs; assumption || discriminate).
      change (Path.noUp (EmptyString :: ((x :: l) ++ _)))
        with (Path.noUp ((x :: l)
              ++ (if JS.endsWithChar Path.slash (String "/" q) then [EmptyString] else []))).
      rewrite noUp_tail. now apply names_noUp. }
    split; [now apply noUp_upsFirst | intros _; exact G].
  - pose proof (normalize_relative c q Hc) as N. cbv zeta in N. rewrite N.
    destruct (normalizeString_segments_up (String c q)) as [_ Hnames].
    pose proof (resolveSegsUp_upsFirst (Path.segments (String c q))) as U.
    destruct (Path.resolveSegsUp (Path.segments (String c q))) as [|x l] eqn:E.
    + destruct (JS.endsWithChar Path.slash (String c q)); now split.
    + rewrite segments_with_tail by (assumption || discriminate). split.
      * now apply upsFirst_tail.
      * intros Hp. rewrite noUp_tail, <- E. now apply resolveSegsUp_noUp.
Qed.

(** *** What the stripping of leading parent segments leaves *)

Lemma stripParents_unfold (a b c : ascii) (r : string) :
  stripParents (String a (String b (String c r)))
  = if JS.isChar a Path.dot && JS.isChar b Path.dot
       && (JS.isChar c Path.slash || JS.isChar c "\")
    then stripParents r else String a (String b (String c r)).
Proof. reflexivity. Qed.

Lemma stripParents_upto (n : nat) :
  forall s, String.length s <= n ->
    Path.upsFirst (Path.segments s) = true ->
    Path.upsFirst (Path.segments (stripParents s)) = true
    /\ JS.startsWith "../" (stripParents s) = false.
Proof.
  induction n as [|n IH]; intros s Hn Hu.
  - destruct s; [now split | simpl in Hn; lia].
  - destruct s as [|a [|b [|c r]]]; try (split; [exact Hu | reflexivity]).
    + split; [exact Hu|]. cbn. now rewrite andb_false_r.
    + split; [exact Hu|]. cbn. now rewrite !andb_false_r.
    + rewrite stripParents_unfold.
      destruct (JS.isChar a Path.dot) eqn:Ea; cbn [andb].
      2:{ split; [exact Hu|]. cbn [JS.startsWith]. unfold JS.isChar in *.
          rewrite (Ascii.eqb_sym "." a). unfold Path.dot in Ea. now rewrite Ea. }
      destruct (JS.isChar b Path.dot) eqn:Eb; cbn [andb].
      2:{ split; [exact Hu|]. cbn [JS.startsWith]. unfold JS.isChar in *.
          rewrite (Ascii.eqb_sym "." b). unfold Path.dot in Eb.
          now rewrite Eb, andb_false_r. }
      apply Ascii.eqb_eq in Ea, Eb. unfold Path.dot in Ea, Eb. subst a b.
      cbn [String.length] in Hn.
      destruct (JS.isChar c Path.slash) eqn:Ec; cbn [orb].
      * apply Ascii.eqb_eq in Ec. unfold Path.slash in Ec. subst c.
        apply IH; [lia|]. exact Hu.
      * destruct (JS.isChar c "\") eqn:Eb2.
        -- apply Ascii.eqb_eq in Eb2. subst c. apply IH; [lia|].
           change (Path.segments (String "." (String "." (String "\" r))))
             with (Path.splitAcc "..\" r) in Hu.
           rewrite splitAcc_cur in Hu. fold (Path.segments r) in Hu.
           pose proof (segments_not_nil r) as Hne.
           destruct (Path.segments r) as [|f tl]; [easy|].
           change (Path.upsFirst (("..\" ++ f) :: tl)) with (Path.noUp tl) in Hu.
           cbn [Path.upsFirst]. destruct (String.eqb f "..");
             [now apply noUp_upsFirst | exact Hu].
        -- split; [exact Hu|]. cbn [JS.startsWith]. unfold JS.isChar in *.
           rewrite (Ascii.eqb_sym "/" c). unfold Path.slash in Ec.
           now rewrite Ec, !andb_false_r.
Qed.

Lemma first_segment_up (s : string) (tl : list string) :
  Path.segments s = ".." :: tl -> s = ".." \/ JS.startsWith "../" s = true.
Proof.
  intros H.
  destruct s as [|a s1]; [discriminate H|].
  destruct (Path.isPosixPathSeparator a) eqn:Ea.
  { unfold Path.segments in H. cbn [Path.splitAcc] in H. rewrite Ea in H.
    discriminate H. }
  rewrite (segments_cons_other a s1 Ea) in H.
  pose proof (segments_not_nil s1) as N1.
  destruct (Path.segments s1) as [|f1 t1] eqn:E1; [easy|].
  injection H as Ha Hf1 Ht. subst a f1.
  destruct s1 as [|b s2]; [discriminate E1|].
  destruct (Path.isPosixPathSeparator b) eqn:Eb.
  { unfold Path.segments in E1. cbn [Path.splitAcc] in E1. rewrite Eb in E1.
    discriminate E1. }
  rewrite (segments_cons_other b s2 Eb) in E1.
  pose proof (segments_not_nil s2) as N2.
  destruct (Path.segments s2) as [|f2 t2] eqn:E2; [easy|].
  injection E1 as Hb Hf2 Ht2. subst b f2.
  destruct s2 as [|c s3]; [now left|].
  destruct (Path.isPosixPathSeparator c) eqn:Ec.
  - right. unfold Path.isPosixPathSeparator, JS.isChar in Ec.
    apply Ascii.eqb_eq in Ec. unfold Path.slash in Ec. subst c. reflexivity.
  - rewrite (segments_cons_other c s3 Ec) in E2.
    destruct (Path.segments s3); discriminate E2.
Qed.

(** After the stripping, the path is two dots or holds no segment of two
    dots. *)
Lemma stripped_is_safe (s : string) :
  Path.upsFirst (Path.segments s) = true ->
  stripParents s = ".." \/ Path.noUp (Path.segments (stripParents s)) = true.
Proof.
  intros Hu.
  destruct (stripParents_upto (String.length s) s (le_n _) Hu) as [U H].
  pose proof (segments_not_nil (stripParents s)) as N.
  destruct (Path.segments (stripParents s)) as [|f tl] eqn:E; [easy|].
  cbn [Path.upsFirst] in U.
  destruct (String.eqb_spec f "..") as [->|Hf].
  - destruct (first_segment_up _ _ E) as [L|R]; [now left | congruence].
  - right. unfold Path.noUp in *. cbn [forallb]. rewrite U.
    apply String.eqb_neq in Hf. now rewrite Hf.
Qed.

(** ** The static file resolver: any target *)

Lemma stripLeadingSlash_noUp (s : string) :
  Path.noUp (Path.segments s) = true ->
  Path.noUp (Path.segments (stripLeadingSlash s)) = true.
Proof.
  destruct s as [|a t]; [easy|]. cbn [stripLeadingSlash].
  destruct (JS.isChar a Path.slash) eqn:Ea; [|easy].
  apply Ascii.eqb_eq in Ea. unfold Path.slash in Ea. subst a.
  rewrite segments_cons_slash. unfold Path.noUp. cbn [forallb]. now intros H.
Qed.

Lemma join_index_noUp (s : string) :
  s <> EmptyString -> Path.noUp (Path.segments s) = true ->
  Path.noUp (Path.segments (Path.join s "index.html")) = true.
Proof.
  intros Hs Hn. rewrite join_nonempty by (exact Hs || discriminate).
  apply normalize_segments. rewrite segments_app, noUp_app, Hn. reflexivity.
Qed.

(** The resolved path of any request target is two dots, or holds no
    segment of two dots. *)
Lemma resolvePath_safe (u : string) :
  resolvePath u = ".." \/ Path.noUp (Path.segments (resolvePath u)) = true.
Proof.
  unfold resolvePath. cbv zeta.
  set (s := stripParents (Path.normalize (JS.splitHead "?" u))).
  destruct (stripped_is_safe (Path.normalize (JS.splitHead "?" u))) as [E|S].
  { apply normalize_segments. }
  - left. fold s in E. rewrite E. reflexivity.
  - right. fold s in S. apply stripLeadingSlash_noUp.
    destruct (String.eqb s "/" || JS.endsWithChar Path.slash s) eqn:T; [|exact S].
    apply join_index_noUp; [|exact S].
    intros E. rewrite E in T. discriminate T.
Qed.

Lemma fold_stepSeg_noUp (l : list string) :
  Path.noUp l = true ->
  forall acc, exists more, fold_left Path.stepSeg l acc = (acc ++ more)%list.
Proof.
  induction l as [|s l IH]; intros Hl acc.
  - exists []. now rewrite app_nil_r.
  - unfold Path.noUp in Hl. cbn [forallb] in Hl. apply andb_prop in Hl as [Hs Hl].
    apply negb_true_iff in Hs. cbn [fold_left]. unfold Path.stepSeg at 2.
    rewrite Hs. destruct (String.eqb s EmptyString || String.eqb s ".").
    + now apply IH.
    + destruct (IH Hl (acc ++ [s])%list) as [more E]. exists (s :: more).
      now rewrite E, <- app_assoc.
Qed.

Lemma rooted_no_trailing_slash (root : list string) :
  Forall (fun s => Path.isName s = true) root -> root <> [] ->
  JS.endsWithChar Path.slash (String "/" (Path.joinSegs root)) = false.
Proof.
  intros Hrn Hrne.
  change (String "/" (Path.joinSegs root)) with ("/" ++ Path.joinSegs root).
  rewrite endsWithChar_app.
  - now apply joinSegs_no_trailing_slash.
  - intros E. pose proof (length_joinSegs_names root Hrn Hrne) as P.
    rewrite E in P. cbn in P. lia.
Qed.

(** A rooted path of names is its own normal form. *)
Lemma normalize_rooted (root : list string) :
  Forall (fun s => Path.isName s = true) root -> root <> [] ->
  Path.normalize (String "/" (Path.joinSegs root)) = String "/" (Path.joinSegs root).
Proof.
  intros Hrn Hrne.
  pose proof (normalize_absolute (Path.joinSegs root)) as N. cbv zeta in N.
  assert (Sg : Path.segments (String "/" (Path.joinSegs root)) = EmptyString :: root)
    by exact (segments_rooted root Hrn Hrne).
  assert (Rs : Path.resolveSegs (EmptyString :: root) = root).
  { pose proof (resolveSegs_rooted root [] Hrn (Forall_nil _)) as Q.
    now rewrite !app_nil_r in Q. }
  rewrite Sg, Rs, (rooted_no_trailing_slash root Hrn Hrne) in N.
  rewrite N. destruct root as [|x l]; [easy|].
  rewrite append_nil_r. reflexivity.
Qed.

(** Joining a path without segments of two dots to the static root gives
    a file at or below the static root. *)
Lemma join_safe_below (env : Env) (r : string) :
  JS.startsWith "/" (dirname env) = true ->
  Path.noUp (Path.segments r) = true ->
  confined (staticDir (config env)) (fullPath env r) = true.
Proof.
  intros Hd Hr. destruct (staticDir_names env Hd) as (root & Hroot & Hrn & Hrne).
  unfold fullPath, confined. rewrite Hroot.
  change ("/" ++ Path.joinSegs root) with (String "/" (Path.joinSegs root)).
  set (R := String "/" (Path.joinSegs root)).
  destruct (String.eqb r EmptyString) eqn:Er.
  - apply String.eqb_eq in Er. subst r.
    change (Path.join R EmptyString) with (Path.normalize R). subst R.
    rewrite (normalize_rooted root Hrn Hrne), String.eqb_refl. reflexivity.
  - apply String.eqb_neq in Er.
    rewrite join_nonempty by (exact Er || (subst R; discriminate)).
    change (R ++ "/" ++ r) with (String "/" (Path.joinSegs root ++ "/" ++ r)).
    pose proof (normalize_absolute (Path.joinSegs root ++ "/" ++ r)) as N.
    cbv zeta in N.
    assert (Sg : Path.segments (String "/" (Path.joinSegs root ++ "/" ++ r))
                 = ((EmptyString :: root) ++ Path.segments r)%list).
    { change (String "/" (Path.joinSegs root ++ "/" ++ r))
        with (("/" ++ Path.joinSegs root) ++ "/" ++ r).
      now rewrite segments_app, segments_rooted. }
    destruct (fold_stepSeg_noUp (Path.segments r) Hr root) as [more Hm].
    assert (Rs : Path.resolveSegs ((EmptyString :: root) ++ Path.segments r)
                 = (root ++ more)%list).
    { unfold Path.resolveSegs. rewrite fold_left_app.
      change (fold_left Path.stepSeg (EmptyString :: root) [])
        with (Path.resolveSegs ((EmptyString :: root))).
      pose proof (resolveSegs_rooted root [] Hrn (Forall_nil _)) as Q.
      rewrite !app_nil_r in Q. rewrite Q. exact Hm. }
    rewrite Sg, Rs in N. rewrite N. clear N Sg Rs Hm.
    set (t := if JS.endsWithChar Path.slash (String "/" (Path.joinSegs root ++ "/" ++ r))
              then "/" else EmptyString).
    assert (Ht : t = "/" \/ t = EmptyString).
    { subst t. destruct (JS.endsWithChar _ _); [now left | now right]. }
    clearbody t.
    assert (G : exists rest,
      "/" ++ Path.joinSegs (root ++ more) ++ t = R
      \/ "/" ++ Path.joinSegs (root ++ more) ++ t = (R ++ "/") ++ rest).
    { destruct more as [|m more'].
      - rewrite app_nil_r. exists EmptyString.
        destruct Ht as [-> | ->].
        + right. now rewrite append_nil_r.
        + left. now rewrite append_nil_r.
      - exists (Path.joinSegs (m :: more') ++ t). right.
        rewrite joinSegs_app by (assumption || discriminate).
        subst R. change (String "/" (Path.joinSegs root)) with ("/" ++ Path.joinSegs root).
        now rewrite !append_assoc. }
    destruct G as [rest [G | G]].
    + destruct (root ++ more)%list as [|x0 l0] eqn:E0.
      { destruct root; [easy | discriminate E0]. }
      rewrite G, String.eqb_refl. reflexivity.
    + destruct (root ++ more)%list as [|x0 l0] eqn:E0.
      { destruct root; [easy | discriminate E0]. }
      rewrite G, startsWith_refl_app. apply orb_true_r.
Qed.

(** X18.  Traversal is bounded for every request target: either the
    resolved path is exactly two dots (and the file read is the parent of
    the static root, a directory), or the file read is the static root or
    lies below it.  The server's directory is taken to be an absolute
    path. *)
Theorem traversal_reaches_at_most_the_parent (env : Env) (u : string) :
  JS.startsWith "/" (dirname env) = true ->
  (resolvePath u = ".."
   /\ fullPath env (resolvePath u) = Path.join (staticDir (config env)) "..")
  \/ confined (staticDir (config env)) (fullPath env (resolvePath u)) = true.
Proof.
  intros Hd. destruct (resolvePath_safe u) as [E|S].
  - left. split; [exact E|]. now rewrite E.
  - right. now apply join_safe_below.
Qed.

Lemma traversal_reaches_at_most_the_parent_witness :
  JS.startsWith "/" (dirname sampleEnv) = true
  /\ ((resolvePath "http://../../..\..\../etc/passwd" = ".."
       /\ fullPath sampleEnv (resolvePath "http://../../..\..\../etc/passwd")
          = Path.join (staticDir (config sampleEnv)) "..")
      \/ confined (staticDir (config sampleEnv))
           (fullPath sampleEnv (resolvePath "http://../../..\..\../etc/passwd")) = true).
Proof.
  split; [reflexivity|].
  apply (traversal_reaches_at_most_the_parent sampleEnv
           "http://../../..\..\../etc/passwd").
  reflexivity.
Defined.
